(** * US census cleaning pipeline: a shallow embedding

    The script [deepseek_python_20250922_150886.py] is one linear pass over a
    pandas data frame.  Each statement of the cleaning core (steps 2-10 and
    the top-5 query of step 12) is embedded below as a function on an
    explicit table value.  Of the plotting code only the calls that fail on
    values of the table are modelled (the trend line of line 121 and the
    histograms of line 158); console output is not modelled.

    Modelling conventions
    - a data frame is the list of its rows, each paired with its index label;
    - a [float64] cell is a rational or one of the three IEEE special
      values; every arithmetic result is rounded to binary64 (to nearest,
      ties to even, overflow to an infinity), the sign of zero is not
      kept; [NaN] is the missing-value marker of a float column, as in
      pandas;
    - a text is a string of ASCII characters: [float()], [int()] and the
      [.str] slices are modelled on ASCII text;
    - a nullable [Int64] cell and a text cell are options, [None] standing
      for [pd.NA] / [NaN];
    - a Python exception is a value of [exn] carried by the [result] type. *)

From Stdlib Require Import List Bool Arith ZArith QArith Qreduction Lia.
From Stdlib Require Import Qround Qabs Qpower Lqa.
From Stdlib Require Import String Ascii.
From Stdlib Require Import Sorting.Sorted Sorting.Permutation.
Import ListNotations.

Set Implicit Arguments.

(* ------------------------------------------------------------------------- *)
(** ** Python exceptions *)

Inductive exn : Type :=
| ValueError
| KeyError
| AttributeError
| OverflowError
| TypeError
| LinAlgError.

Inductive result (A : Type) : Type :=
| Ok (a : A)
| Raise (e : exn).

Arguments Ok {A} a.
Arguments Raise {A} e.

Definition bind {A B : Type} (m : result A) (k : A -> result B) : result B :=
  match m with
  | Ok a => k a
  | Raise e => Raise e
  end.

Notation "x <- m ;; k" := (bind m (fun x => k))
  (at level 61, m at next level, right associativity).

Fixpoint mapM {A B : Type} (f : A -> result B) (l : list A) : result (list B) :=
  match l with
  | [] => Ok []
  | a :: l' => b <- f a ;; bs <- mapM f l' ;; Ok (b :: bs)
  end.

(* ------------------------------------------------------------------------- *)
(** ** Float cells *)

Inductive float64 : Type :=
| Fin (q : Q)
| PInf
| NInf
| NaN.

Definition isna (x : float64) : bool :=
  match x with
  | NaN => true
  | _ => false
  end.

Definition fneg (x : float64) : float64 :=
  match x with
  | Fin a => Fin (Qred (- a))
  | PInf => NInf
  | NInf => PInf
  | NaN => NaN
  end.

(** The power of two [2^z]. *)
Definition pw (z : Z) : Q := 2 ^ z.

(** The integer nearest to [x], a tie going to the even one. *)
Definition Qround_even (x : Q) : Z :=
  let k := Qfloor x in
  match Qcompare (x - inject_Z k) (1 # 2) with
  | Lt => k
  | Gt => (k + 1)%Z
  | Eq => if Z.even k then k else (k + 1)%Z
  end.

(** [floor (log2 q)] for [q >= 2^-1100], and -1100 below. *)
Definition exponent_of (q : Q) : Z :=
  (Z.log2 (Qfloor (q * pw 1100)) - 1100)%Z.

(** The exponent of the unit in the last place of the binary64 numbers
    next to [q]: 52 below the exponent of [q], and -1074 in the subnormal
    range. *)
Definition ulp_exponent (q : Q) : Z :=
  (Z.max (exponent_of q) (-1022) - 52)%Z.

(** Rounding a rational [q >= 0] to binary64, to nearest and ties to even;
    what reaches [2^1024] overflows to infinity. *)
Definition round_pos (q : Q) : float64 :=
  let u := ulp_exponent q in
  let v := inject_Z (Qround_even (q / pw u)) * pw u in
  if Qle_bool (pw 1024) v then PInf else Fin (Qred v).

(** The binary64 number nearest to a rational. *)
Definition round64 (q : Q) : float64 :=
  if (Qnum q <? 0)%Z then fneg (round_pos (- q)) else round_pos q.

(** Binary64 addition: the exact sum, rounded. *)
Definition fadd (x y : float64) : float64 :=
  match x, y with
  | NaN, _ | _, NaN => NaN
  | Fin a, Fin b => round64 (a + b)
  | PInf, NInf | NInf, PInf => NaN
  | PInf, _ | _, PInf => PInf
  | NInf, _ | _, NInf => NInf
  end.

Definition fsub (x y : float64) : float64 := fadd x (fneg y).

(** Binary64 division: the exact quotient, rounded; a zero divisor gives an
    infinity of the sign of the dividend, and [NaN] for 0 / 0. *)
Definition fdiv (x y : float64) : float64 :=
  match x, y with
  | NaN, _ | _, NaN => NaN
  | Fin a, Fin b =>
      if Qeq_bool b 0 then
        if Qle_bool a 0 then (if Qeq_bool a 0 then NaN else NInf) else PInf
      else round64 (a / b)
  | Fin _, _ => Fin 0
  | PInf, Fin b => if Qle_bool 0 b then PInf else NInf
  | NInf, Fin b => if Qle_bool 0 b then NInf else PInf
  | _, _ => NaN
  end.

(** The conversion of an integer to binary64. *)
Definition of_int (z : Z) : float64 := round64 (inject_Z z).

(** Value equality of two float cells, rationals compared as numbers. *)
Definition feq (x y : float64) : Prop :=
  match x, y with
  | Fin a, Fin b => a == b
  | PInf, PInf | NInf, NInf | NaN, NaN => True
  | _, _ => False
  end.

Definition is_finite (x : float64) : bool :=
  match x with
  | Fin _ => true
  | _ => false
  end.

Definition hundred : float64 := Fin 100.
Definition fzero : float64 := Fin 0.

(* ------------------------------------------------------------------------- *)
(** ** Rows and frames *)

(** The eleven columns kept by line 67. *)
Record row : Type := mkRow {
  State : option string;
  TotalPop : option Z;
  Hispanic : float64;
  White : float64;
  Black : float64;
  Native : float64;
  Asian : float64;
  Pacific : float64;
  Income : float64;
  Male : option Z;
  Female : option Z
}.

(** A row once line 103 has added the derived column. *)
Record drow : Type := mkDRow {
  base : row;
  Female_Proportion : float64
}.

(** A frame: rows in order, each with its index label. *)
Definition frame (A : Type) : Type := list (nat * A).

Definition labels {A : Type} (df : frame A) : list nat := map fst df.
Definition values {A : Type} (df : frame A) : list A := map snd df.

(* ------------------------------------------------------------------------- *)
(** ** Text helpers: characters, [float()] and [int()] literals *)

Local Open Scope char_scope.

Definition chars (s : string) : list ascii := list_ascii_of_string s.

Definition is_digit (c : ascii) : bool :=
  let n := nat_of_ascii c in (48 <=? n)%nat && (n <=? 57)%nat.

Definition is_space (c : ascii) : bool :=
  let n := nat_of_ascii c in ((9 <=? n)%nat && (n <=? 13)%nat) || (n =? 32)%nat.

Definition digit_val (c : ascii) : Z := Z.of_nat (nat_of_ascii c) - 48.

(** The number written by a run of decimal digits. *)
Definition digits_val (ds : list ascii) : Z :=
  fold_left (fun acc c => 10 * acc + digit_val c)%Z ds 0%Z.

Definition lower (c : ascii) : ascii :=
  let n := nat_of_ascii c in
  if (65 <=? n)%nat && (n <=? 90)%nat then ascii_of_nat (n + 32) else c.

Fixpoint span (p : ascii -> bool) (l : list ascii) : list ascii * list ascii :=
  match l with
  | [] => ([], [])
  | c :: l' =>
      if p c then let (a, b) := span p l' in (c :: a, b) else ([], l)
  end.

Fixpoint lstrip (l : list ascii) : list ascii :=
  match l with
  | c :: l' => if is_space c then lstrip l' else l
  | [] => []
  end.

Definition strip (l : list ascii) : list ascii :=
  rev (lstrip (rev (lstrip l))).

(** Digit-group underscores of a numeric literal: an underscore is accepted
    only between two digits, and is then dropped. *)
Fixpoint drop_underscores (prev : ascii) (l : list ascii)
  : option (list ascii) :=
  match l with
  | [] => if (prev =? "_") then None else Some []
  | c :: l' =>
      if (c =? "_") then
        if is_digit prev then drop_underscores c l' else None
      else if (prev =? "_") && negb (is_digit c) then None
      else option_map (cons c) (drop_underscores c l')
  end.

Definition split_sign (l : list ascii) : bool * list ascii :=
  match l with
  | "-" :: t => (true, t)
  | "+" :: t => (false, t)
  | _ => (false, l)
  end.

Definition nonempty {A : Type} (l : list A) : bool :=
  match l with
  | [] => false
  | _ => true
  end.

Definition chars_eqb (a b : list ascii) : bool :=
  if list_eq_dec ascii_dec a b then true else false.

(** [int(s)] in base 10, on ASCII text. *)
Definition py_int (s : string) : option Z :=
  match drop_underscores zero (strip (chars s)) with
  | None => None
  | Some l =>
      let (neg, ds) := split_sign l in
      if nonempty ds && forallb is_digit ds
      then Some (if neg then - digits_val ds else digits_val ds)%Z
      else None
  end.

(** The binary64 number nearest to [m * 10^e]. *)
Definition scale10 (m e : Z) : float64 :=
  if (0 <=? e)%Z
  then round64 (inject_Z (m * 10 ^ e))
  else round64 (Qmake m (Z.to_pos (10 ^ (- e)))).

(** The exponent part of a float literal: empty, or [e]/[E], an optional
    sign and at least one digit. *)
Definition exponent (l : list ascii) : option Z :=
  match l with
  | [] => Some 0%Z
  | c :: t =>
      if (lower c =? "e") then
        let (neg, ds) := split_sign t in
        if nonempty ds && forallb is_digit ds
        then Some (if neg then - digits_val ds else digits_val ds)%Z
        else None
      else None
  end.

(** [float(s)] on ASCII text: surrounding blanks, digit-group underscores,
    a sign, then [inf], [infinity], [nan] in any case, or a decimal literal
    with an optional fraction and exponent, read as the nearest binary64
    number. *)
Definition py_float (s : string) : option float64 :=
  match drop_underscores zero (strip (chars s)) with
  | None => None
  | Some l =>
      let (neg, body) := split_sign l in
      let word := map lower body in
      if chars_eqb word (chars "inf") || chars_eqb word (chars "infinity")
      then Some (if neg then NInf else PInf)
      else if chars_eqb word (chars "nan") then Some NaN
      else
        let (ip, r1) := span is_digit body in
        let (fp, r2) :=
          match r1 with
          | "." :: t => span is_digit t
          | _ => ([], r1)
          end in
        if nonempty (ip ++ fp) then
          match exponent r2 with
          | Some e =>
              let m := digits_val (ip ++ fp) in
              Some (scale10 (if neg then - m else m)
                            (e - Z.of_nat (List.length fp)))
          | None => None
          end
        else None
  end.

Local Close Scope char_scope.

(* ------------------------------------------------------------------------- *)
(** ** Step 2: the File Loader (lines 32-43) *)

(** A record as [read_csv] delivers it: text cells for the formatted columns,
    an integer cell for [TotalPop]; a blank field is [None]. *)
Record raw_row : Type := mkRaw {
  raw_State : option string;
  raw_TotalPop : option Z;
  raw_Hispanic : option string;
  raw_White : option string;
  raw_Black : option string;
  raw_Native : option string;
  raw_Asian : option string;
  raw_Pacific : option string;
  raw_Income : option string;
  raw_GenderPop : option string
}.

(** One input file: its header line and its records. *)
Record csv_file : Type := mkCsv {
  header : list string;
  records : list raw_row
}.

(** The combined raw frame. *)
Record raw_frame : Type := mkRawFrame {
  columns : list string;
  raw_rows : list raw_row
}.

Definition has (h : list string) (c : string) : bool :=
  if in_dec string_dec c h then true else false.

Definition cell_of {A : Type} (h : list string) (c : string) (x : option A)
  : option A :=
  if has h c then x else None.

(** [pd.read_csv(file)]: a column that the header does not name carries no
    data. *)
Definition read_csv (f : csv_file) : list raw_row :=
  let h := header f in
  map (fun r =>
         mkRaw (cell_of h "State" (raw_State r))
               (cell_of h "TotalPop" (raw_TotalPop r))
               (cell_of h "Hispanic" (raw_Hispanic r))
               (cell_of h "White" (raw_White r))
               (cell_of h "Black" (raw_Black r))
               (cell_of h "Native" (raw_Native r))
               (cell_of h "Asian" (raw_Asian r))
               (cell_of h "Pacific" (raw_Pacific r))
               (cell_of h "Income" (raw_Income r))
               (cell_of h "GenderPop" (raw_GenderPop r)))
      (records f).

(** [pd.concat(df_list, ignore_index=True)]: no frame to concatenate is a
    [ValueError]; otherwise the columns are the union of the headers and the
    rows follow one another. *)
Definition pd_concat (df_list : list csv_file) : result raw_frame :=
  match df_list with
  | [] => Raise ValueError
  | _ =>
      Ok (mkRawFrame (nodup string_dec (List.concat (map header df_list)))
                     (List.concat (map read_csv df_list)))
  end.

(** [df[c]] on a column name: a [KeyError] when the frame has no such
    column. *)
Definition get_column (c : string) (df : raw_frame) : result unit :=
  if has (columns df) c then Ok tt else Raise KeyError.

(* ------------------------------------------------------------------------- *)
(** ** Steps 3-5: the Field Normalizer *)

(** [Series.replace(pattern, '', regex=True)] for a pattern that matches one
    character of a class: every such character of a text cell is deleted. *)
Definition delete_chars (p : ascii -> bool) (s : string) : string :=
  string_of_list_ascii (filter (fun c => negb (p c)) (chars s)).

(** [astype(float)] on one cell. *)
Definition astype_float (c : option string) : result float64 :=
  match c with
  | None => Ok NaN
  | Some s =>
      match py_float s with
      | Some x => Ok x
      | None => Raise ValueError
      end
  end.

Definition currency_mark (c : ascii) : bool :=
  (c =? "$")%char || (c =? ",")%char.

(** Line 52, on one cell. *)
Definition clean_income (c : option string) : result float64 :=
  astype_float (option_map (delete_chars currency_mark) c).

Definition percent_mark (c : ascii) : bool := (c =? "%")%char.

(** Line 79, on one cell. *)
Definition clean_percent (c : option string) : result float64 :=
  astype_float (option_map (delete_chars percent_mark) c).

(** [str.split(sep)] on one text. *)
Fixpoint split_on (sep : ascii) (l : list ascii) : list (list ascii) :=
  match l with
  | [] => [[]]
  | c :: l' =>
      if (c =? sep)%char then [] :: split_on sep l'
      else match split_on sep l' with
           | h :: t => (c :: h) :: t
           | [] => [[c]]
           end
  end.

(** The parts of one cell under [str.split('_', expand=True)]; a missing
    cell is one missing part. *)
Definition parts (c : option string) : list (option string) :=
  match c with
  | None => [None]
  | Some s => map (fun p => Some (string_of_list_ascii p))
                  (split_on "_"%char (chars s))
  end.

(** Line 61: the expanded frame, column by column; short rows are padded
    with missing parts. *)
Definition str_split_expand (col : list (option string))
  : list (list (option string)) :=
  let rows := map parts col in
  let width := list_max (map (@List.length _) rows) in
  map (fun j => map (fun ps => nth j ps None) rows) (seq 0 width).

(** [x.str[:-1]] followed by [replace('', pd.NA)], on one cell of ASCII
    text (one character is one byte). *)
Definition strip_marker (c : option string) : option string :=
  match c with
  | None => None
  | Some s =>
      match removelast (chars s) with
      | [] => None
      | l => Some (string_of_list_ascii l)
      end
  end.

Definition int64_ok (z : Z) : bool :=
  ((- 2 ^ 63 <=? z) && (z <=? 2 ^ 63 - 1))%Z.

(** [astype('Int64')] on one cell. *)
Definition astype_Int64 (c : option string) : result (option Z) :=
  match c with
  | None => Ok None
  | Some s =>
      match py_int s with
      | None => Raise ValueError
      | Some z => if int64_ok z then Ok (Some z) else Raise OverflowError
      end
  end.

Definition is_none {A : Type} (x : option A) : bool :=
  match x with
  | None => true
  | Some _ => false
  end.

(** Lines 61-64 on the whole [GenderPop] column: the [.str] accessor needs a
    text column, the cast runs column by column, and the assignment to
    [['Male', 'Female']] needs exactly two columns. *)
Definition split_gender (col : list (option string))
  : result (list (option Z * option Z)) :=
  if nonempty col && forallb is_none col then Raise AttributeError
  else
    cols <- mapM (mapM (fun c => astype_Int64 (strip_marker c)))
                 (str_split_expand col) ;;
    match cols with
    | [m; f] => Ok (combine m f)
    | _ => Raise ValueError
    end.

Definition required_columns : list string :=
  ["State"; "TotalPop"; "Hispanic"; "White"; "Black"; "Native"; "Asian";
   "Pacific"]%string.

(** Line 67: selecting the kept columns is a [KeyError] when one is absent
    ([Income], [Male] and [Female] exist by then). *)
Definition select_columns (df : raw_frame) : result unit :=
  if forallb (has (columns df)) required_columns then Ok tt
  else Raise KeyError.

(** Line 79 on the six cells of one record; a failing cast is a
    [ValueError] whichever cell it meets first. *)
Definition normalize_row (r : raw_row) (inc : float64)
           (mf : option Z * option Z) : result row :=
  h <- clean_percent (raw_Hispanic r) ;;
  w <- clean_percent (raw_White r) ;;
  b <- clean_percent (raw_Black r) ;;
  n <- clean_percent (raw_Native r) ;;
  a <- clean_percent (raw_Asian r) ;;
  p <- clean_percent (raw_Pacific r) ;;
  Ok (mkRow (raw_State r) (raw_TotalPop r) h w b n a p inc (fst mf) (snd mf)).

(** The default [RangeIndex]. *)
Definition range_index {A : Type} (rows : list A) : frame A :=
  combine (seq 0 (List.length rows)) rows.

(** Lines 52-79. *)
Definition normalize (df : raw_frame) : result (frame row) :=
  _ <- get_column "Income" df ;;
  income <- mapM clean_income (map raw_Income (raw_rows df)) ;;
  _ <- get_column "GenderPop" df ;;
  gender <- split_gender (map raw_GenderPop (raw_rows df)) ;;
  _ <- select_columns df ;;
  rows <- mapM (fun x => normalize_row (fst (fst x)) (snd (fst x)) (snd x))
               (combine (combine (raw_rows df) income) gender) ;;
  Ok (range_index rows).

(* ------------------------------------------------------------------------- *)
(** ** Step 6: the Deduplicator (lines 87-95) *)

(** Cell equality as the duplicate test sees it: numbers by value, two
    missing cells alike. *)
Definition feqb (x y : float64) : bool :=
  match x, y with
  | Fin a, Fin b => Qeq_bool a b
  | PInf, PInf | NInf, NInf | NaN, NaN => true
  | _, _ => false
  end.

Definition opt_eqb {A : Type} (eqb : A -> A -> bool) (x y : option A) : bool :=
  match x, y with
  | Some a, Some b => eqb a b
  | None, None => true
  | _, _ => false
  end.

(** Two rows identical across all columns. *)
Definition row_eqb (r s : row) : bool :=
  opt_eqb String.eqb (State r) (State s)
  && opt_eqb Z.eqb (TotalPop r) (TotalPop s)
  && feqb (Hispanic r) (Hispanic s)
  && feqb (White r) (White s)
  && feqb (Black r) (Black s)
  && feqb (Native r) (Native s)
  && feqb (Asian r) (Asian s)
  && feqb (Pacific r) (Pacific s)
  && feqb (Income r) (Income s)
  && opt_eqb Z.eqb (Male r) (Male s)
  && opt_eqb Z.eqb (Female r) (Female s).

(** [duplicated()] with the default [keep='first']: one pass that marks a
    row already met and remembers the others. *)
Fixpoint duplicated_from (seen : list row) (rows : list row) : list bool :=
  match rows with
  | [] => []
  | r :: rs =>
      if existsb (row_eqb r) seen
      then true :: duplicated_from seen rs
      else false :: duplicated_from (r :: seen) rs
  end.

Definition duplicated (df : frame row) : list bool :=
  duplicated_from [] (values df).

(** Line 88: [df.duplicated().sum()]. *)
Definition duplicate_count (df : frame row) : nat :=
  List.length (filter (fun b : bool => b) (duplicated df)).

(** [drop_duplicates()]: the rows whose mark is [False], labels kept. *)
Definition drop_duplicates (df : frame row) : frame row :=
  map fst (filter (fun x => negb (snd x)) (combine df (duplicated df))).

(** [reset_index(drop=True)]. *)
Definition reset_index {A : Type} (df : frame A) : frame A :=
  range_index (values df).

(** Line 93. *)
Definition deduplicate (df : frame row) : frame row :=
  reset_index (drop_duplicates df).

(* ------------------------------------------------------------------------- *)
(** ** Step 7: the Feature Deriver (lines 103-104) *)

(** Element-wise [Int64 / int64] followed by [astype(float)]: a missing
    operand gives [NaN]; a zero divisor gives the IEEE quotient, no
    exception; otherwise both integers are converted to binary64 and
    divided. *)
Definition truediv (a b : option Z) : float64 :=
  match a, b with
  | Some x, Some y =>
      if (y =? 0)%Z then
        if (0 <? x)%Z then PInf else if (x <? 0)%Z then NInf else NaN
      else fdiv (of_int x) (of_int y)
  | _, _ => NaN
  end.

Definition derive_row (r : row) : drow :=
  mkDRow r (truediv (Female r) (TotalPop r)).

Definition feature_deriver (df : frame row) : frame drow :=
  map (fun ir => (fst ir, derive_row (snd ir))) df.

(* ------------------------------------------------------------------------- *)
(** ** Step 10: the Imputer (lines 145-148) *)

(** [demographic_cols], as the positions of a row Series. *)
Definition demographic (r : row) : list float64 :=
  [Hispanic r; White r; Black r; Native r; Asian r; Pacific r].

(** [Series.sum()], whose default [skipna=True] leaves the missing entries
    out; the sum of no entry is 0. *)
Definition nansum (s : list float64) : float64 :=
  fold_left (fun acc x => if isna x then acc else fadd acc x) s fzero.

(** [Series.fillna(v)]. *)
Definition fillna (v : float64) (s : list float64) : list float64 :=
  map (fun x => if isna x then v else x) s.

(** The lambda of line 146. *)
Definition impute_series (s : list float64) : list float64 :=
  if existsb isna s then fillna (fsub hundred (nansum s)) s else s.

(** Writing a six-entry Series back into the demographic columns of a row;
    the other columns are not touched by [df[demographic_cols] = ...]. *)
Definition set_demographic (s : list float64) (r : row) : row :=
  match s with
  | [h; w; b; n; a; p] =>
      mkRow (State r) (TotalPop r) h w b n a p (Income r) (Male r) (Female r)
  | _ => r
  end.

Definition impute_row (r : drow) : drow :=
  mkDRow (set_demographic (impute_series (demographic (base r))) (base r))
         (Female_Proportion r).

Definition imputer (df : frame drow) : frame drow :=
  map (fun ir => (fst ir, impute_row (snd ir))) df.

(* ------------------------------------------------------------------------- *)
(** ** Step 12: the top-5 query (lines 195-197) *)

(** [x > y] on float cells; [NaN] compares false. *)
Definition fgtb (x y : float64) : bool :=
  match x, y with
  | NaN, _ | _, NaN => false
  | PInf, PInf => false
  | PInf, _ => true
  | _, PInf => false
  | NInf, _ => false
  | Fin _, NInf => true
  | Fin a, Fin b => negb (Qle_bool a b)
  end.

Section NLargest.
Variable A : Type.
Variable key : A -> float64.

(** Stable insertion into a list in descending key order: the new row
    goes before the first row whose key is not larger. *)
Fixpoint insert_desc (x : A) (l : list A) : list A :=
  match l with
  | [] => [x]
  | y :: l' => if fgtb (key y) (key x) then y :: insert_desc x l' else x :: l
  end.

Definition sort_desc (l : list A) : list A := fold_right insert_desc [] l.

(** [nlargest(n, column)] with the default [keep='first']: the rows with
    a value, in descending order and equal values in row order, then the
    rows without one; the first [n] of them. *)
Definition nlargest (n : nat) (l : list A) : list A :=
  firstn n (sort_desc (filter (fun x => negb (isna (key x))) l)
            ++ filter (fun x => isna (key x)) l).
End NLargest.

(** The ['Income'] cell of a labelled row. *)
Definition income_of (ir : nat * drow) : float64 := Income (base (snd ir)).

(** The projection [[['State', 'Income', 'Female_Proportion']]]. *)
Definition summary (ir : nat * drow) : nat * (option string * float64 * float64) :=
  (fst ir, (State (base (snd ir)), Income (base (snd ir)),
            Female_Proportion (snd ir))).

Definition top_income_states (df : frame drow)
  : frame (option string * float64 * float64) :=
  map summary (nlargest income_of 5 df).

(* ------------------------------------------------------------------------- *)
(** ** The whole run *)

Record report : Type := mkReport {
  cleaned : frame drow;
  top5 : frame (option string * float64 * float64)
}.

(** Line 121, [np.polyfit(df['Female_Proportion'], df['Income'], 1)]:
    [TypeError] on an empty vector of abscissas, and [LinAlgError] from the
    least-squares solver when the abscissas hold a [NaN] or an infinity;
    the ordinates do not make it raise. *)
Definition polyfit (df : frame drow) : result unit :=
  match df with
  | [] => Raise TypeError
  | _ =>
      if forallb (fun ir => is_finite (Female_Proportion (snd ir))) df
      then Ok tt
      else Raise LinAlgError
  end.

(** Line 158, [plt.hist(df[demographic], bins=15)], on one column: the
    range of the bins is taken from the values other than [NaN], and
    [ValueError] is raised when it is not finite, that is when the column
    holds an infinity, or holds cells and nothing but [NaN]. *)
Definition plt_hist (col : list float64) : result unit :=
  if existsb (fun x => negb (isna x || is_finite x)) col
     || (nonempty col && forallb isna col)
  then Raise ValueError
  else Ok tt.

(** The loop of lines 156-175 over the six demographic columns. *)
Definition histograms (df : frame drow) : result unit :=
  _ <- mapM (fun k => plt_hist
                        (map (fun ir => nth k (demographic (base (snd ir))) NaN)
                             df))
            (seq 0 6) ;;
  Ok tt.

(** Lines 32-197 in order.  An exception raised by the loader, the
    normalizer, the trend line or a histogram ends the run: the top-5
    answer is not printed and the table is not exported.  The remaining
    plotting and printing calls are left out. *)
Definition run (files : list csv_file) : result report :=
  raw <- pd_concat files ;;
  df <- normalize raw ;;
  let df := feature_deriver (deduplicate df) in
  _ <- polyfit df ;;
  let df := imputer df in
  _ <- histograms df ;;
  Ok (mkReport df (top_income_states df)).

(* ------------------------------------------------------------------------- *)
(** * Vocabulary of the specification *)

(** ** Words for the Imputer *)

(** Plain sum of a Series, entry after entry. *)
Definition fsum (s : list float64) : float64 := fold_left fadd s fzero.

Definition present (x : float64) : bool := negb (isna x).

(** "100 minus the sum of the non-missing entries". *)
Definition complement (s : list float64) : float64 :=
  fsub hundred (fsum (filter present s)).

Definition count_na (s : list float64) : nat :=
  List.length (filter isna s).

(** No infinite entry: every cell is a finite number or missing. *)
Definition ordinary (s : list float64) : bool :=
  forallb (fun x => is_finite x || isna x) s.

(** Every entry is missing or a finite number of magnitude at most [B]. *)
Definition within (B : Q) (s : list float64) : bool :=
  forallb (fun x => match x with
                    | Fin q => Qle_bool (Qabs q) B
                    | NaN => true
                    | _ => false
                    end) s.

Definition complete (df : frame drow) : bool :=
  forallb (fun ir => negb (existsb isna (demographic (base (snd ir))))) df.

(** The rational carried by a finite cell, 0 for the others. *)
Definition qval (x : float64) : Q :=
  match x with
  | Fin q => q
  | _ => 0
  end.

Definition qsum (s : list float64) : Q :=
  fold_right (fun x acc => qval x + acc) 0 s.

(** ** Words for the Deduplicator *)

(** Row [n] of a table is identical, across all columns, to a row before
    it. *)
Definition is_repeat (rows : list row) (n : nat) : bool :=
  match nth_error rows n with
  | Some r => existsb (row_eqb r) (firstn n rows)
  | None => false
  end.

(** The rows that repeat no earlier row, in their order. *)
Definition first_occurrences (rows : list row) : list row :=
  map snd (filter (fun x => negb (is_repeat rows (fst x))) (range_index rows)).

(** The number of rows that repeat an earlier row. *)
Definition repeat_count (rows : list row) : nat :=
  List.length (filter (fun x => is_repeat rows (fst x)) (range_index rows)).

(** The number of rows of a table identical to [r]. *)
Definition copies (r : row) (rows : list row) : nat :=
  List.length (filter (row_eqb r) rows).

(** [seen] stands for the rows [before]: a row is identical to a member of
    one exactly when it is identical to a member of the other. *)
Definition stands_for (seen before : list row) : Prop :=
  forall x : row, existsb (row_eqb x) seen = existsb (row_eqb x) before.

(** Boolean-mask selection [l[~m]]. *)
Definition unmarked {A : Type} (l : list A) (m : list bool) : list A :=
  map fst (filter (fun x => negb (snd x)) (combine l m)).

(** ** Words for the Field Normalizer and the File Loader *)

(** The composite text [<male>M_<female>F]. *)
Definition composite (male female : list ascii) : string :=
  string_of_list_ascii
    (male ++ "M"%char :: "_"%char :: female ++ ["F"%char]).

(** The count written by a run of digits; nothing written is a missing
    count. *)
Definition count_of (ds : list ascii) : option Z :=
  if nonempty ds then Some (digits_val ds) else None.

(** A run of digits, possibly empty, whose number fits [Int64]. *)
Definition count_text (ds : list ascii) : bool :=
  forallb is_digit ds && int64_ok (digits_val ds).

Definition composite_cell (mf : list ascii * list ascii) : option string :=
  Some (composite (fst mf) (snd mf)).

(** A currency text: digits with currency symbols and group separators
    among them, at least one digit. *)
Definition currency_text (w : list ascii) : bool :=
  forallb (fun c => is_digit c || currency_mark c) w && existsb is_digit w.

(** The decimal number written by the digits of [m] with the last [k] of
    them after the point. *)
Definition decimal (m : Z) (k : nat) : Q :=
  inject_Z m / inject_Z (10 ^ Z.of_nat k).

(** A text of ASCII characters only. *)
Definition is_ascii (s : string) : bool :=
  forallb (fun c => (nat_of_ascii c <? 128)%nat) (list_ascii_of_string s).

(** The columns the script reads by name. *)
Definition needed_columns : list string :=
  ("Income" :: "GenderPop" :: required_columns)%string.

(** The six percentage cells of a record. *)
Definition raw_demographic (r : raw_row) : list (option string) :=
  [raw_Hispanic r; raw_White r; raw_Black r; raw_Native r; raw_Asian r;
   raw_Pacific r].

(** ** Words for the top-5 query *)

(** [x] is listed before [y] in the ranking by income: a row with an income
    before a row without; of two incomes the larger first; equal incomes,
    or two rows without income, in the order of their labels. *)
Definition outranks (x y : nat * drow) : Prop :=
  match isna (income_of x), isna (income_of y) with
  | false, true => True
  | true, false => False
  | true, true => (fst x < fst y)%nat
  | false, false =>
      fgtb (income_of x) (income_of y) = true
      \/ (feqb (income_of x) (income_of y) = true /\ (fst x < fst y)%nat)
  end.

(** The index is the dense zero-based one. *)
Definition dense_index {A : Type} (df : frame A) : Prop :=
  labels df = seq 0 (List.length df).

Definition state_of (ir : nat * drow) : option string := State (base (snd ir)).

(** The states listed by a top-5 answer. *)
Definition listed_states (top : frame (option string * float64 * float64))
  : list (option string) :=
  map (fun s => fst (fst (snd s))) top.

(** ** Sample tables and files *)

(** Sample rows: the end-to-end scenario of the specification (one gap, in
    [Black]), a row with two gaps, and a complete row whose percentages add
    up to 60. *)
Definition scenario_row : drow :=
  mkDRow (mkRow (Some "Test"%string) (Some 1000%Z)
                (Fin 10) (Fin 80) NaN (Fin 0) (Fin 5) (Fin 5)
                (Fin 50000) (Some 400%Z) (Some 600%Z))
         (truediv (Some 600%Z) (Some 1000%Z)).

Definition two_gap_row : drow :=
  mkDRow (mkRow (Some "Gaps"%string) (Some 2000%Z)
                (Fin 10) (Fin 60) NaN (Fin (1 # 2)) NaN (Fin 5)
                (Fin 61000) (Some 900%Z) (Some 1100%Z))
         (truediv (Some 1100%Z) (Some 2000%Z)).

Definition sixty_row : drow :=
  mkDRow (mkRow (Some "Sixty"%string) (Some 500%Z)
                (Fin 10) (Fin 10) (Fin 10) (Fin 10) (Fin 10) (Fin 10)
                (Fin 42000) (Some 250%Z) (Some 250%Z))
         (Fin (1 # 2)).

(** A row with one gap next to a percentage cell that holds 1e30. *)
Definition huge_row : drow :=
  mkDRow (mkRow (Some "Huge"%string) (Some 1000%Z)
                (Fin 1000000000000000019884624838656) NaN (Fin 0) (Fin 0)
                (Fin 0) (Fin 0)
                (Fin 50000) (Some 400%Z) (Some 600%Z))
         (truediv (Some 600%Z) (Some 1000%Z)).

Definition sample_frame : frame drow :=
  [(0%nat, scenario_row); (1%nat, two_gap_row); (2%nat, sixty_row)].

(** A table with one row given three times and another row once. *)
Definition dup_table : frame row :=
  range_index [base scenario_row; base sixty_row; base scenario_row;
               base scenario_row].

(** A row whose population is zero and whose female count is not. *)
Definition empty_land : row :=
  mkRow (Some "Nowhere"%string) (Some 0%Z)
        (Fin 10) (Fin 80) (Fin 5) (Fin 0) (Fin 3) (Fin 2)
        (Fin 30000) (Some 400%Z) (Some 600%Z).

(** Six rows, two of them for the same state. *)
Definition six_rows : frame drow :=
  range_index
    [scenario_row; two_gap_row; sixty_row;
     mkDRow (mkRow (Some "Test"%string) (Some 1200%Z)
                   (Fin 20) (Fin 70) (Fin 5) (Fin 0) (Fin 3) (Fin 2)
                   (Fin 70000) (Some 500%Z) (Some 700%Z))
            (truediv (Some 700%Z) (Some 1200%Z));
     mkDRow (mkRow (Some "East"%string) (Some 100%Z)
                   (Fin 20) (Fin 70) (Fin 5) (Fin 0) (Fin 3) (Fin 2)
                   (Fin 61000) (Some 50%Z) (Some 50%Z))
            (Fin (1 # 2));
     mkDRow (mkRow (Some "West"%string) (Some 100%Z)
                   (Fin 20) (Fin 70) (Fin 5) (Fin 0) (Fin 3) (Fin 2)
                   NaN (Some 50%Z) (Some 50%Z))
            (Fin (1 # 2))].

(** Input files: the ten columns of the census files, three records, and
    three more of which one is for a state already listed. *)
Definition census_header : list string :=
  ["State"; "TotalPop"; "Hispanic"; "White"; "Black"; "Native"; "Asian";
   "Pacific"; "Income"; "GenderPop"]%string.

Definition three_records : list raw_row :=
  [mkRaw (Some "Test") (Some 1000%Z) (Some "10%") (Some "80%") None
         (Some "0%") (Some "5%") (Some "5%") (Some "$50,000")
         (Some "400M_600F");
   mkRaw (Some "Gaps") (Some 2000%Z) (Some "10%") (Some "60%") None
         (Some "0.5%") None (Some "5%") (Some "$61,000")
         (Some "900M_1100F");
   mkRaw (Some "Sixty") (Some 500%Z) (Some "10%") (Some "10%") (Some "10%")
         (Some "10%") (Some "10%") (Some "10%") (Some "$42,000")
         (Some "250M_250F")]%string.

Definition more_records : list raw_row :=
  [mkRaw (Some "Test") (Some 1200%Z) (Some "20%") (Some "70%") (Some "5%")
         (Some "0%") (Some "3%") (Some "2%") (Some "$70,000")
         (Some "500M_700F");
   mkRaw (Some "East") (Some 100%Z) (Some "20%") (Some "70%") (Some "5%")
         (Some "0%") (Some "3%") (Some "2%") (Some "$61,000")
         (Some "50M_50F");
   mkRaw (Some "West") (Some 100%Z) (Some "20%") (Some "70%") (Some "5%")
         (Some "0%") (Some "3%") (Some "2%") (Some "$30,000")
         (Some "50M_50F")]%string.

Definition states0 : csv_file := mkCsv census_header three_records.

Definition states1 : csv_file := mkCsv census_header more_records.

(** Malformed files: no [Income] column; an income that is no number; a
    percentage that is no number; a gender count that is no number. *)
Definition no_income_file : csv_file :=
  mkCsv ["State"; "TotalPop"; "Hispanic"; "White"; "Black"; "Native";
         "Asian"; "Pacific"; "GenderPop"]%string three_records.

Definition bad_income_record : raw_row :=
  (mkRaw (Some "Test") (Some 1000%Z) (Some "10%") (Some "80%") None
        (Some "0%") (Some "5%") (Some "5%") (Some "$n/a")
        (Some "400M_600F"))%string.

Definition bad_percent_record : raw_row :=
  (mkRaw (Some "Test") (Some 1000%Z) (Some "10%") (Some "80%") None
        (Some "0%") (Some "five%") (Some "5%") (Some "$50,000")
        (Some "400M_600F"))%string.

Definition bad_count_record : raw_row :=
  (mkRaw (Some "Test") (Some 1000%Z) (Some "10%") (Some "80%") None
        (Some "0%") (Some "5%") (Some "5%") (Some "$50,000")
        (Some "4x0M_600F"))%string.

(** A record without a population. *)
Definition no_population_record : raw_row :=
  (mkRaw (Some "Test") None (Some "10%") (Some "80%") None
        (Some "0%") (Some "5%") (Some "5%") (Some "$50,000")
        (Some "400M_600F"))%string.

Definition malformed_files : list csv_file :=
  [states0;
   mkCsv census_header
         [bad_income_record; bad_percent_record; bad_count_record]].

(** A second file without the [Hispanic] column. *)
Definition no_hispanic_file : csv_file :=
  mkCsv ["State"; "TotalPop"; "White"; "Black"; "Native"; "Asian";
         "Pacific"; "Income"; "GenderPop"]%string more_records.

(** ** Words for the further properties *)

(** Digits and percent signs. *)
Definition percent_run (w : list ascii) : bool :=
  forallb (fun c => is_digit c || percent_mark c) w.

(** A percentage text: digits and percent signs, at least one digit. *)
Definition percent_text (w : list ascii) : bool :=
  percent_run w && existsb is_digit w.

(** The number of columns of the expanded [GenderPop] frame. *)
Definition split_width (col : list (option string)) : nat :=
  list_max (map (@List.length _) (map parts col)).

(** The cells of a normalized row that are computed from the record of the
    same position alone. *)
Definition cleaned_from (r : raw_row) (x : row) : Prop :=
  State x = raw_State r
  /\ TotalPop x = raw_TotalPop r
  /\ clean_income (raw_Income r) = Ok (Income x)
  /\ mapM clean_percent (raw_demographic r) = Ok (demographic x).

Definition ordinary_table (df : frame drow) : bool :=
  forallb (fun ir => ordinary (demographic (base (snd ir)))) df.

(** The combined frame of the three sample records. *)
Definition sample_raw : raw_frame := mkRawFrame census_header three_records.

(** The records of all the input files. *)
Definition all_records (files : list csv_file) : list raw_row :=
  List.concat (map records files).

(* ------------------------------------------------------------------------- *)
(** * Binary64 rounding *)

Unset Implicit Arguments.

Section Rounding.

Lemma pw_pos (z : Z) : 0 < pw z.
Proof. apply Qpower_0_lt; reflexivity. Qed.

Lemma pw_plus (a b : Z) : pw (a + b) == pw a * pw b.
Proof. apply Qpower_plus; discriminate. Qed.

Lemma pw_le (a b : Z) : (a <= b)%Z -> pw a <= pw b.
Proof. intro H; apply Qpower_le_compat_l; [exact H | discriminate]. Qed.

Lemma pw_lt (a b : Z) : (a < b)%Z -> pw a < pw b.
Proof. intro H; apply Qpower_lt_compat_l; [exact H | reflexivity]. Qed.

Lemma pw_Z (z : Z) : (0 <= z)%Z -> pw z == inject_Z (2 ^ z).
Proof. intro H; symmetry; apply (Zpower_Qpower 2 z H). Qed.

Lemma pw_0 : pw 0 == 1.
Proof. reflexivity. Qed.

Lemma Qmult_comp_flip (a b : Q) : a * b == b * a.
Proof. ring. Qed.

Lemma pw_half (z : Z) : pw (z - 1) == pw z * (1 # 2).
Proof.
  unfold Z.sub; rewrite pw_plus.
  apply Qmult_comp; [reflexivity | reflexivity].
Qed.

Lemma pw_cancel (z : Z) : pw z * pw (- z) == 1.
Proof. rewrite <- pw_plus, Z.add_opp_diag_r; reflexivity. Qed.

Lemma div_pw (q : Q) (z : Z) : q / pw z == q * pw (- z).
Proof.
  unfold Qdiv; apply Qmult_comp; [reflexivity|].
  unfold pw; rewrite Qpower_opp; reflexivity.
Qed.

(** ** Rounding to the nearest integer *)

Lemma Qround_even_bounds (x : Q) :
  (Qfloor x <= Qround_even x <= Qfloor x + 1)%Z
  /\ Qabs (inject_Z (Qround_even x) - x) <= 1 # 2.
Proof.
  pose proof (Qfloor_le x) as Hlo.
  pose proof (Qlt_floor x) as Hhi.
  rewrite inject_Z_plus in Hhi; change (inject_Z 1) with 1 in Hhi.
  unfold Qround_even.
  destruct (Qcompare_spec (x - inject_Z (Qfloor x)) (1 # 2)) as [H|H|H];
    [destruct (Z.even (Qfloor x))| |];
    (split; [lia|]); apply Qabs_Qle_condition;
    try (rewrite inject_Z_plus; change (inject_Z 1) with 1);
    split; lra.
Qed.

Lemma Qround_even_Z (x : Q) (z : Z) : x == inject_Z z -> Qround_even x = z.
Proof.
  intro H; unfold Qround_even.
  assert (Hf : Qfloor x = z) by (rewrite H; apply Qfloor_Z).
  rewrite Hf.
  destruct (Qcompare_spec (x - inject_Z z) (1 # 2)) as [E|E|E];
    [lra | reflexivity | lra].
Qed.

Lemma Qround_even_le (x : Q) (M : Z) :
  x <= inject_Z M -> (Qround_even x <= M)%Z.
Proof.
  intro H; destruct (Qlt_le_dec x (inject_Z M)) as [Hlt|Hge].
  - destruct (Qround_even_bounds x) as [[_ Hk] _].
    assert (Qfloor x < M)%Z; [|lia].
    rewrite Zlt_Qlt; apply Qle_lt_trans with x; [apply Qfloor_le | exact Hlt].
  - rewrite (Qround_even_Z x M); [lia | apply Qle_antisym; assumption].
Qed.

Lemma Qround_even_nonneg (x : Q) : 0 <= x -> (0 <= Qround_even x)%Z.
Proof.
  intro H; destruct (Qround_even_bounds x) as [[Hk _] _].
  apply Z.le_trans with (Qfloor x); [|exact Hk].
  change 0%Z with (Qfloor 0); apply Qfloor_resp_le, H.
Qed.

(** ** The exponent *)

Lemma exponent_of_lt (q : Q) (B : Z) :
  q < pw B -> (-1100 < B)%Z -> (exponent_of q < B)%Z.
Proof.
  intros Hq HB; unfold exponent_of.
  set (t := Qfloor (q * pw 1100)).
  assert (Ht : (t < 2 ^ (B + 1100))%Z).
  { rewrite Zlt_Qlt; apply Qle_lt_trans with (q * pw 1100);
      [apply Qfloor_le|].
    rewrite <- pw_Z, pw_plus by lia.
    apply Qmult_lt_compat_r; [apply pw_pos | exact Hq]. }
  destruct (Z_lt_le_dec 0 t) as [Hp|Hn].
  - apply Z.log2_lt_pow2 in Ht; [lia | exact Hp].
  - rewrite Z.log2_nonpos by exact Hn; lia.
Qed.

Lemma exponent_of_le (q : Q) :
  (1 <= Qfloor (q * pw 1100))%Z -> pw (exponent_of q) <= q.
Proof.
  intro Ht; unfold exponent_of.
  set (t := Qfloor (q * pw 1100)) in *.
  assert (H1 : pw (Z.log2 t) <= q * pw 1100).
  { apply Qle_trans with (inject_Z t); [|apply Qfloor_le].
    rewrite pw_Z by apply Z.log2_nonneg.
    rewrite <- Zle_Qle; apply Z.log2_spec; lia. }
  unfold Z.sub; rewrite pw_plus.
  apply Qle_trans with (q * pw 1100 * pw (- 1100)).
  - apply Qmult_le_compat_r; [exact H1 | apply Qlt_le_weak, pw_pos].
  - rewrite <- Qmult_assoc, pw_cancel, Qmult_1_r; apply Qle_refl.
Qed.


(** ** Rounding a non-negative rational *)

Lemma ulp_exponent_le (q : Q) (B : Z) :
  q < pw B -> (-1022 < B)%Z -> (ulp_exponent q <= B - 53)%Z.
Proof.
  intros Hq HB; unfold ulp_exponent.
  pose proof (exponent_of_lt q B Hq) as He; lia.
Qed.

Lemma ulp_exponent_ge (q : Q) : (-1074 <= ulp_exponent q)%Z.
Proof. unfold ulp_exponent; lia. Qed.

Lemma scaled_error (q : Q) (u : Z) :
  Qabs (inject_Z (Qround_even (q / pw u)) * pw u - q) <= pw (u - 1).
Proof.
  destruct (Qround_even_bounds (q / pw u)) as [_ H].
  assert (Hp : 0 < pw u) by apply pw_pos.
  assert (E : inject_Z (Qround_even (q / pw u)) * pw u - q
              == (inject_Z (Qround_even (q / pw u)) - q / pw u) * pw u).
  { field; intro H0; rewrite H0 in Hp; discriminate. }
  rewrite E, Qabs_Qmult, (Qabs_pos (pw u)) by (apply Qlt_le_weak, Hp).
  rewrite pw_half, (Qmult_comp_flip (pw u)).
  apply Qmult_le_compat_r; [exact H | apply Qlt_le_weak, Hp].
Qed.

Lemma round_pos_fin (q : Q) :
  0 <= q -> q <= pw 1023 ->
  round_pos q
  = Fin (Qred (inject_Z (Qround_even (q / pw (ulp_exponent q)))
               * pw (ulp_exponent q))).
Proof.
  intros H0 Hq; unfold round_pos.
  set (u := ulp_exponent q).
  set (v := inject_Z (Qround_even (q / pw u)) * pw u).
  replace (Qle_bool (pw 1024) v) with false; [reflexivity|].
  symmetry; apply not_true_is_false; intro Hov.
  apply Qle_bool_iff in Hov.
  assert (Hu : (u <= 971)%Z).
  { unfold u; apply Z.le_trans with (1024 - 53)%Z; [|lia].
    apply ulp_exponent_le; [|lia].
    apply Qle_lt_trans with (pw 1023); [exact Hq | apply pw_lt; lia]. }
  pose proof (scaled_error q u) as He; fold v in He.
  apply Qabs_Qle_condition in He; destruct He as [_ He].
  assert (H1 : pw (u - 1) <= pw 970) by (apply pw_le; lia).
  assert (H2 : pw 970 < pw 1023) by (apply pw_lt; lia).
  assert (H3 : pw 1024 == pw 1023 + pw 1023).
  { change 1024%Z with (1023 + 1)%Z; rewrite pw_plus.
    change (pw 1) with 2; ring. }
  lra.
Qed.

Lemma ulp_exponent_comp (q q' : Q) :
  q == q' -> ulp_exponent q = ulp_exponent q'.
Proof.
  intro H; unfold ulp_exponent, exponent_of.
  rewrite (Qfloor_comp (q * pw 1100) (q' * pw 1100)); [reflexivity|].
  rewrite H; reflexivity.
Qed.

Lemma Qround_even_comp (x y : Q) : x == y -> Qround_even x = Qround_even y.
Proof.
  intro H; unfold Qround_even.
  rewrite (Qfloor_comp x y H).
  assert (E : Qcompare (x - inject_Z (Qfloor y)) (1 # 2)
              = Qcompare (y - inject_Z (Qfloor y)) (1 # 2))
    by (rewrite H; reflexivity).
  rewrite E; reflexivity.
Qed.

Lemma round_pos_comp (q q' : Q) : q == q' -> round_pos q = round_pos q'.
Proof.
  intro H; unfold round_pos.
  rewrite (ulp_exponent_comp q q' H).
  rewrite (Qround_even_comp (q / pw (ulp_exponent q'))
             (q' / pw (ulp_exponent q'))) by (rewrite H; reflexivity).
  reflexivity.
Qed.

Lemma Qnum_neg (q : Q) : (Qnum q <? 0)%Z = true <-> q < 0.
Proof.
  rewrite Z.ltb_lt; unfold Qlt; simpl; rewrite Z.mul_1_r; reflexivity.
Qed.

Lemma round64_comp (q q' : Q) : q == q' -> round64 q = round64 q'.
Proof.
  intro H; unfold round64.
  assert (Hs : (Qnum q <? 0)%Z = (Qnum q' <? 0)%Z).
  { apply eq_true_iff_eq; rewrite !Qnum_neg, H; reflexivity. }
  rewrite Hs; destruct (Qnum q' <? 0)%Z.
  - rewrite (round_pos_comp (- q) (- q')) by (rewrite H; reflexivity).
    reflexivity.
  - apply round_pos_comp, H.
Qed.

(** Rounding never gives [NaN]. *)
Lemma round64_not_na (q : Q) : isna (round64 q) = false.
Proof.
  unfold round64, round_pos.
  destruct (Qnum q <? 0)%Z;
    match goal with
    | |- context [Qle_bool ?a ?b] => destruct (Qle_bool a b)
    end; reflexivity.
Qed.

(** A finite result and its distance to [q], by the last-place exponent of
    the magnitude of [q]. *)
Lemma round64_fin (q : Q) :
  Qabs q <= pw 1023 ->
  exists r : Q,
    round64 q = Fin r
    /\ Qabs (r - q) <= pw (ulp_exponent (Qabs q) - 1)
    /\ (0 <= q -> 0 <= r).
Proof.
  intro Hq; unfold round64.
  destruct (Qnum q <? 0)%Z eqn:Es.
  - apply Qnum_neg in Es.
    assert (Ha : Qabs q == - q) by (apply Qabs_neg, Qlt_le_weak, Es).
    rewrite (ulp_exponent_comp _ _ Ha).
    rewrite round_pos_fin by lra.
    set (v := inject_Z (Qround_even (- q / pw (ulp_exponent (- q))))
              * pw (ulp_exponent (- q))).
    pose proof (scaled_error (- q) (ulp_exponent (- q))) as He; fold v in He.
    exists (Qred (- Qred v)); split; [reflexivity|]; split; [|lra].
    rewrite !Qred_correct.
    assert (E : - v - q == - (v - - q)) by ring.
    rewrite E, Qabs_opp; exact He.
  - assert (H0 : 0 <= q).
    { apply Qnot_lt_le; intro H; apply Qnum_neg in H; congruence. }
    assert (Ha : Qabs q == q) by (apply Qabs_pos, H0).
    rewrite (ulp_exponent_comp _ _ Ha).
    rewrite round_pos_fin by lra.
    set (v := inject_Z (Qround_even (q / pw (ulp_exponent q)))
              * pw (ulp_exponent q)).
    pose proof (scaled_error q (ulp_exponent q)) as He; fold v in He.
    exists (Qred v); split; [reflexivity|]; split.
    + rewrite Qred_correct; exact He.
    + intros _; rewrite Qred_correct; unfold v.
      apply Qmult_le_0_compat; [|apply Qlt_le_weak, pw_pos].
      change 0 with (inject_Z 0); rewrite <- Zle_Qle.
      apply Qround_even_nonneg.
      apply Qle_shift_div_l; [apply pw_pos | lra].
Qed.

(** Within [2^17] the rounding error is at most [2^-36]. *)
Lemma round64_small (q : Q) :
  Qabs q <= pw 17 ->
  exists r : Q, round64 q = Fin r /\ Qabs (r - q) <= pw (-36).
Proof.
  intro Hq.
  destruct (round64_fin q) as [r [Hr [He _]]].
  { apply Qle_trans with (pw 17); [exact Hq | apply pw_le; lia]. }
  exists r; split; [exact Hr|].
  apply Qle_trans with (pw (ulp_exponent (Qabs q) - 1)); [exact He|].
  apply pw_le.
  assert (ulp_exponent (Qabs q) <= 18 - 53)%Z; [|lia].
  apply ulp_exponent_le; [|lia].
  apply Qle_lt_trans with (pw 17); [exact Hq | apply pw_lt; lia].
Qed.

(** In the normal range the relative error is at most [2^-53]. *)
Lemma round64_relative (q : Q) :
  pw (-1022) <= Qabs q -> Qabs q <= pw 1023 ->
  exists r : Q, round64 q = Fin r /\ Qabs (r - q) <= Qabs q * pw (-53).
Proof.
  intros Hlo Hhi.
  destruct (round64_fin q Hhi) as [r [Hr [He _]]].
  exists r; split; [exact Hr|].
  apply Qle_trans with (pw (ulp_exponent (Qabs q) - 1)); [exact He|].
  unfold ulp_exponent.
  destruct (Z_le_gt_dec (-1022) (exponent_of (Qabs q))) as [Hn|Hs].
  - rewrite Z.max_l by exact Hn.
    replace (exponent_of (Qabs q) - 52 - 1)%Z
      with (exponent_of (Qabs q) + - 53)%Z by lia.
    rewrite pw_plus.
    apply Qmult_le_compat_r; [|apply Qlt_le_weak, pw_pos].
    apply exponent_of_le.
    assert (H1 : pw 78 <= Qabs q * pw 1100).
    { change 78%Z with (-1022 + 1100)%Z; rewrite pw_plus.
      apply Qmult_le_compat_r; [exact Hlo | apply Qlt_le_weak, pw_pos]. }
    assert (H2 : (1 <= 2 ^ 78)%Z) by (apply Z.lt_pred_le; apply Z.pow_pos_nonneg; lia).
    apply Z.le_trans with (2 ^ 78)%Z; [exact H2|].
    rewrite <- (Qfloor_Z (2 ^ 78)); apply Qfloor_resp_le.
    rewrite <- pw_Z by lia; exact H1.
  - rewrite Z.max_r by lia.
    change (-1022 - 52 - 1)%Z with (-1022 + - 53)%Z; rewrite pw_plus.
    apply Qmult_le_compat_r; [exact Hlo | apply Qlt_le_weak, pw_pos].
Qed.

Lemma round_pos_exact (q : Q) (m j : Z) :
  (0 <= m < 2 ^ 53)%Z -> (0 <= j <= 1074)%Z ->
  q == inject_Z m * pw (- j) ->
  round_pos q = Fin (Qred q).
Proof.
  intros Hm Hj Hq.
  assert (Hpj : 0 < pw (- j)) by apply pw_pos.
  assert (H0 : 0 <= q).
  { rewrite Hq; apply Qmult_le_0_compat; [|apply Qlt_le_weak, Hpj].
    change 0 with (inject_Z 0); rewrite <- Zle_Qle; lia. }
  assert (Hlt : q < pw (53 - j)).
  { rewrite Hq; unfold Z.sub; rewrite pw_plus.
    apply Qmult_lt_compat_r; [exact Hpj|].
    rewrite pw_Z by lia; rewrite <- Zlt_Qlt; lia. }
  assert (Hu : (ulp_exponent q <= - j)%Z).
  { assert (ulp_exponent q <= 53 - j - 53)%Z; [|lia].
    apply ulp_exponent_le; [exact Hlt | lia]. }
  rewrite round_pos_fin;
    [| exact H0
     | apply Qlt_le_weak, Qlt_le_trans with (pw (53 - j));
       [exact Hlt | apply pw_le; lia]].
  f_equal; apply Qred_complete.
  set (u := ulp_exponent q) in *.
  assert (Hs : q / pw u == inject_Z (m * 2 ^ (- j - u))).
  { rewrite div_pw, Hq, inject_Z_mult, <- pw_Z by lia.
    rewrite <- Qmult_assoc, <- pw_plus.
    replace (- j + - u)%Z with (- j - u)%Z by lia; reflexivity. }
  rewrite (Qround_even_Z _ _ Hs), <- Hs.
  field; intro Hz; pose proof (pw_pos u) as Hp; rewrite Hz in Hp;
    discriminate.
Qed.

(** A number [m * 2^-j] with [|m| < 2^53] and [0 <= j <= 1074] is a
    binary64 number: rounding returns it. *)
Lemma round64_exact (q : Q) (m j : Z) :
  (Z.abs m < 2 ^ 53)%Z -> (0 <= j <= 1074)%Z ->
  q == inject_Z m * pw (- j) ->
  round64 q = Fin (Qred q).
Proof.
  intros Hm Hj Hq; unfold round64.
  destruct (Qnum q <? 0)%Z eqn:Es.
  - apply Qnum_neg in Es.
    assert (Hneg : (m < 0)%Z).
    { apply Z.nle_gt; intro Hm0.
      assert (0 <= q); [|lra].
      rewrite Hq; apply Qmult_le_0_compat;
        [|apply Qlt_le_weak, pw_pos].
      change 0 with (inject_Z 0); rewrite <- Zle_Qle; exact Hm0. }
    rewrite (round_pos_exact (- q) (- m) j); [| lia | exact Hj |].
    + unfold fneg; f_equal; apply Qred_complete.
      rewrite Qred_correct; ring.
    + rewrite Hq, inject_Z_opp; ring.
  - assert (H0 : 0 <= q).
    { apply Qnot_lt_le; intro H; apply Qnum_neg in H; congruence. }
    apply (round_pos_exact q m j); [|exact Hj | exact Hq].
    split; [|lia].
    apply Z.nlt_ge; intro Hneg.
    assert (q < 0); [|lra].
    rewrite Hq.
    assert (Hm' : inject_Z m < 0)
      by (change 0 with (inject_Z 0); rewrite <- Zlt_Qlt; exact Hneg).
    pose proof (pw_pos (- j)) as Hp.
    setoid_replace 0 with (0 * pw (- j)) by ring.
    apply Qmult_lt_compat_r; assumption.
Qed.

Lemma Qred_inject_Z (z : Z) : Qred (inject_Z z) = inject_Z z.
Proof.
  unfold Qred, inject_Z; simpl.
  pose proof (Z.ggcd_gcd z 1) as Hg.
  pose proof (Z.ggcd_correct_divisors z 1) as Hd.
  destruct (Z.ggcd z 1) as [g [a b]]; simpl in *.
  rewrite Z.gcd_1_r in Hg; subst g.
  destruct Hd as [Ha Hb]; rewrite Z.mul_1_l in Ha, Hb; subst a b.
  reflexivity.
Qed.

(** Whole numbers below [2^53] in magnitude are binary64 numbers. *)
Lemma round64_whole (z : Z) :
  (Z.abs z < 2 ^ 53)%Z -> round64 (inject_Z z) = Fin (inject_Z z).
Proof.
  intro Hz; rewrite (round64_exact (inject_Z z) z 0);
    [rewrite Qred_inject_Z; reflexivity | exact Hz | lia |].
  change (pw (- 0)) with 1; ring.
Qed.

(** Rounding keeps a number of the interval [0, 1] in it. *)
Lemma round64_unit (q : Q) :
  0 <= q -> q <= 1 ->
  exists r : Q, round64 q = Fin r /\ 0 <= r /\ r <= 1.
Proof.
  intros H0 H1; unfold round64.
  assert (Es : (Qnum q <? 0)%Z = false).
  { apply not_true_is_false; intro H; apply Qnum_neg in H; lra. }
  rewrite Es.
  assert (Hp : pw 0 <= pw 1023) by (apply pw_le; lia).
  change (pw 0) with 1 in Hp.
  rewrite round_pos_fin by lra.
  set (u := ulp_exponent q).
  assert (Hu : (u <= -52)%Z).
  { assert (u <= 1 - 53)%Z; [|lia].
    apply ulp_exponent_le; [|lia].
    apply Qle_lt_trans with 1; [exact H1|].
    change 1 with (pw 0); apply pw_lt; lia. }
  pose proof (pw_pos u) as Hpu.
  set (k := Qround_even (q / pw u)).
  exists (Qred (inject_Z k * pw u)); split; [reflexivity|].
  rewrite Qred_correct; split.
  - apply Qmult_le_0_compat; [|apply Qlt_le_weak, Hpu].
    change 0 with (inject_Z 0); rewrite <- Zle_Qle.
    apply Qround_even_nonneg, Qle_shift_div_l; [exact Hpu | lra].
  - assert (Hk : (k <= 2 ^ (- u))%Z).
    { apply Qround_even_le.
      rewrite <- pw_Z, div_pw by lia.
      setoid_replace (pw (- u)) with (1 * pw (- u)) at 2 by ring.
      apply Qmult_le_compat_r; [exact H1 | apply Qlt_le_weak, pw_pos]. }
    apply Qle_trans with (inject_Z (2 ^ (- u)) * pw u).
    + apply Qmult_le_compat_r; [|apply Qlt_le_weak, Hpu].
      rewrite <- Zle_Qle; exact Hk.
    + rewrite <- pw_Z by lia.
      rewrite <- pw_plus, Z.add_opp_diag_l; apply Qle_refl.
Qed.
End Rounding.

Set Implicit Arguments.

(** Known roundings: 0.1, the sum 0.1 + 0.2 (0.30000000000000004), the tie
    2^53 + 1 (to the even 2^53) and 2^53 + 3 (to the even 2^53 + 4), the
    smallest subnormal and half of it (to 0), and the overflow of 1e400. *)
Example round64_samples :
  round64 (1 # 10) = Fin (3602879701896397 # 36028797018963968)
  /\ fadd (round64 (1 # 10)) (round64 (2 # 10))
     = Fin (1351079888211149 # 4503599627370496)
  /\ round64 9007199254740993 = Fin 9007199254740992
  /\ round64 9007199254740995 = Fin 9007199254740996
  /\ round64 (pw (-1074)) = Fin (Qred (pw (-1074)))
  /\ round64 (pw (-1075)) = Fin 0
  /\ round64 (inject_Z (10 ^ 400)) = PInf
  /\ round64 (- inject_Z (10 ^ 400)) = NInf.
Proof. repeat split; vm_compute; reflexivity. Qed.

(* ------------------------------------------------------------------------- *)
(** * Properties of the Imputer *)

Lemma nansum_from (s : list float64) (acc : float64) :
  fold_left (fun a x => if isna x then a else fadd a x) s acc
  = fold_left fadd (filter present s) acc.
Proof.
  revert acc; induction s as [|x s IH]; intro acc; simpl; [reflexivity|].
  unfold present at 1; destruct (isna x); simpl; apply IH.
Qed.

Lemma nansum_present (s : list float64) :
  nansum s = fsum (filter present s).
Proof. apply nansum_from. Qed.

Lemma impute_series_length (s : list float64) :
  List.length (impute_series s) = List.length s.
Proof.
  unfold impute_series, fillna; destruct (existsb isna s);
    [apply length_map | reflexivity].
Qed.

Lemma demographic_set (s : list float64) (r : row) :
  List.length s = 6%nat -> demographic (set_demographic s r) = s.
Proof.
  destruct s as [|h [|w [|b [|n [|a [|p [|x s]]]]]]]; simpl; try discriminate.
  reflexivity.
Qed.

Lemma set_demographic_same (r : row) : set_demographic (demographic r) r = r.
Proof. destruct r; reflexivity. Qed.

Lemma demographic_impute (r : drow) :
  demographic (base (impute_row r)) = impute_series (demographic (base r)).
Proof.
  unfold impute_row; simpl; apply demographic_set.
  rewrite impute_series_length; reflexivity.
Qed.

Lemma impute_row_complete (r : drow) :
  existsb isna (demographic (base r)) = false -> impute_row r = r.
Proof.
  intro H; unfold impute_row, impute_series; rewrite H.
  rewrite set_demographic_same; destruct r; reflexivity.
Qed.

Lemma nth_error_imputer (df : frame drow) (n : nat) :
  nth_error (imputer df) n
  = option_map (fun ir => (fst ir, impute_row (snd ir))) (nth_error df n).
Proof. unfold imputer; apply nth_error_map. Qed.

(** C1.  In every row of the table, when a demographic percentage is
    missing each missing entry becomes the one value 100 minus the sum of
    the row's non-missing demographic entries, the other entries staying;
    a row without a missing demographic value is passed through. *)
Theorem imputer_complement_formula :
  forall (df : frame drow) (n i : nat) (r : drow),
    nth_error df n = Some (i, r) ->
    exists r' : drow,
      nth_error (imputer df) n = Some (i, r')
      /\ (existsb isna (demographic (base r)) = true ->
          demographic (base r')
          = map (fun x => if isna x then complement (demographic (base r))
                          else x)
                (demographic (base r)))
      /\ (existsb isna (demographic (base r)) = false -> r' = r).
Proof.
  intros df n i r Hn; exists (impute_row r); repeat split.
  - rewrite nth_error_imputer, Hn; reflexivity.
  - intro Hna; rewrite demographic_impute; unfold impute_series.
    rewrite Hna; unfold fillna, complement; rewrite nansum_present.
    reflexivity.
  - apply impute_row_complete.
Qed.

Lemma imputer_complement_formula_witness :
  nth_error sample_frame 1 = Some (1%nat, two_gap_row)
  /\ exists r' : drow,
      nth_error (imputer sample_frame) 1 = Some (1%nat, r')
      /\ (existsb isna (demographic (base two_gap_row)) = true ->
          demographic (base r')
          = map (fun x => if isna x
                          then complement (demographic (base two_gap_row))
                          else x)
                (demographic (base two_gap_row)))
      /\ (existsb isna (demographic (base two_gap_row)) = false ->
          r' = two_gap_row).
Proof.
  split; [reflexivity|].
  apply (imputer_complement_formula sample_frame 1); reflexivity.
Defined.

(** The two gaps of [two_gap_row] both receive 100 - 75.5 = 24.5. *)
Example impute_two_gaps :
  demographic (base (impute_row two_gap_row))
  = [Fin 10; Fin 60; Fin (49 # 2); Fin (1 # 2); Fin (49 # 2); Fin 5].
Proof. vm_compute; reflexivity. Qed.

(* ------------------------------------------------------------------------- *)
(** ** Row sums after imputation *)

Lemma filter_present_finite (s : list float64) :
  ordinary s = true -> forallb is_finite (filter present s) = true.
Proof.
  unfold ordinary; induction s as [|x s IH]; simpl; intro H; [reflexivity|].
  apply andb_prop in H; destruct H as [Hx Hs].
  destruct x; simpl in *; try discriminate; auto.
Qed.

Lemma qsum_filter_present (s : list float64) :
  ordinary s = true -> qsum (filter present s) == qsum s.
Proof.
  unfold ordinary; induction s as [|x s IH]; simpl; intro H; [reflexivity|].
  apply andb_prop in H; destruct H as [Hx Hs].
  destruct x; simpl in *; try discriminate; rewrite (IH Hs); ring.
Qed.

Lemma fillna_finite (v : Q) (s : list float64) :
  ordinary s = true -> forallb is_finite (fillna (Fin v) s) = true.
Proof.
  unfold ordinary; induction s as [|x s IH]; simpl; intro H; [reflexivity|].
  apply andb_prop in H; destruct H as [Hx Hs].
  destruct x; simpl in *; try discriminate; auto.
Qed.

Lemma qsum_fillna (v : Q) (s : list float64) :
  ordinary s = true ->
  qsum (fillna (Fin v) s) == qsum s + inject_Z (Z.of_nat (count_na s)) * v.
Proof.
  unfold ordinary, count_na; induction s as [|x s IH]; intro H.
  - simpl; ring.
  - simpl in H; apply andb_prop in H; destruct H as [Hx Hs].
    specialize (IH Hs).
    destruct x; try discriminate.
    + simpl in *; rewrite IH; ring.
    + change (qsum (fillna (Fin v) (NaN :: s)))
        with (v + qsum (fillna (Fin v) s)).
      change (List.length (filter isna (NaN :: s)))
        with (S (List.length (filter isna s))).
      rewrite IH, Nat2Z.inj_succ; unfold Z.succ; rewrite inject_Z_plus.
      simpl qsum; ring.
Qed.

Lemma count_na_existsb (s : list float64) :
  (0 < count_na s)%nat -> existsb isna s = true.
Proof.
  unfold count_na; induction s as [|x s IH]; simpl; [lia|].
  destruct (isna x); simpl; auto.
Qed.

Lemma fillna_fills (v : float64) (s : list float64) :
  isna v = false -> existsb isna (fillna v s) = false.
Proof.
  intro Hv; unfold fillna; induction s as [|x s IH]; simpl; [reflexivity|].
  rewrite IH, orb_false_r; destruct (isna x) eqn:E; assumption.
Qed.

Lemma within_ordinary (B : Q) (s : list float64) :
  within B s = true -> ordinary s = true.
Proof.
  unfold within, ordinary; induction s as [|x s IH]; simpl; intro H;
    [reflexivity|].
  apply andb_prop in H; destruct H as [Hx Hs].
  rewrite (IH Hs); destruct x; try discriminate; reflexivity.
Qed.

Lemma within_present (B : Q) (s : list float64) :
  within B s = true ->
  within B (filter present s) = true
  /\ existsb isna (filter present s) = false.
Proof.
  unfold within; induction s as [|x s IH]; simpl; intro H; [split; reflexivity|].
  apply andb_prop in H; destruct H as [Hx Hs].
  destruct (IH Hs) as [H1 H2].
  destruct x; try discriminate; simpl; [|auto].
  rewrite Hx, H1, H2; split; reflexivity.
Qed.

Lemma within_fillna (B v : Q) (s : list float64) :
  within B s = true -> Qabs v <= B ->
  within B (fillna (Fin v) s) = true.
Proof.
  unfold within, fillna; intros H Hv.
  induction s as [|x s IH]; simpl in *; [reflexivity|].
  apply andb_prop in H; destruct H as [Hx Hs].
  rewrite (IH Hs), andb_true_r.
  destruct x; try discriminate; simpl; [exact Hx|].
  apply Qle_bool_iff, Hv.
Qed.

Lemma within_weaken (B B' : Q) (s : list float64) :
  B <= B' -> within B s = true -> within B' s = true.
Proof.
  unfold within; intros HB; induction s as [|x s IH]; simpl; intro H;
    [reflexivity|].
  apply andb_prop in H; destruct H as [Hx Hs].
  rewrite (IH Hs), andb_true_r.
  destruct x; try discriminate; [|reflexivity].
  apply Qle_bool_iff; apply Qle_bool_iff in Hx.
  apply (Qle_trans _ _ _ Hx HB).
Qed.

Lemma inject_nat_succ (n : nat) :
  inject_Z (Z.of_nat (S n)) == 1 + inject_Z (Z.of_nat n).
Proof. rewrite Nat2Z.inj_succ; unfold Z.succ; rewrite inject_Z_plus; ring. Qed.

Lemma inject_nat_nonneg (n : nat) : 0 <= inject_Z (Z.of_nat n).
Proof. change 0 with (inject_Z 0); rewrite <- Zle_Qle; lia. Qed.

Lemma inject_nat_le (n m : nat) :
  (n <= m)%nat -> inject_Z (Z.of_nat n) <= inject_Z (Z.of_nat m).
Proof. intro H; rewrite <- Zle_Qle; lia. Qed.

(** Adding up finite numbers of magnitude at most [B], each partial sum
    rounded: as long as the partial sums stay below [2^17], every addition
    is off by at most [2^-36]. *)
Lemma fsum_from_bounded (B : Q) (s : list float64) (a : Q) :
  within B s = true -> existsb isna s = false ->
  Qabs a + inject_Z (Z.of_nat (List.length s)) * (B + pw (-36)) <= pw 17 ->
  exists q : Q,
    fold_left fadd s (Fin a) = Fin q
    /\ Qabs (q - (a + qsum s))
       <= inject_Z (Z.of_nat (List.length s)) * pw (-36)
    /\ Qabs q <= Qabs a + inject_Z (Z.of_nat (List.length s)) * (B + pw (-36)).
Proof.
  pose proof (pw_pos (-36)) as He.
  remember (pw (-36)) as eps eqn:Eeps.
  remember (pw 17) as top eqn:Etop.
  revert a; induction s as [|x s IH]; intros a Hw Hna Hroom.
  - exists a; split; [reflexivity|].
    cbn [List.length qsum fold_right Z.of_nat].
    split.
    + apply Qabs_Qle_condition; split; ring_simplify; apply Qle_refl.
    + ring_simplify; apply Qle_refl.
  - cbn [within forallb] in Hw; apply andb_prop in Hw; destruct Hw as [Hx Hs].
    cbn [existsb] in Hna; apply orb_false_elim in Hna.
    destruct Hna as [Hx0 Hna].
    destruct x as [b| | |]; try discriminate; clear Hx0.
    apply Qle_bool_iff in Hx.
    cbn [fold_left fadd].
    pose proof (inject_nat_succ (List.length s)) as HS.
    pose proof (inject_nat_nonneg (List.length s)) as HN.
    cbn [List.length] in *.
    remember (inject_Z (Z.of_nat (S (List.length s)))) as N1.
    remember (inject_Z (Z.of_nat (List.length s))) as N.
    assert (HB : 0 <= B) by (apply (Qle_trans _ (Qabs b)); [apply Qabs_nonneg | exact Hx]).
    assert (HP : 0 <= N * (B + eps)) by (apply Qmult_le_0_compat; lra).
    assert (HQ : 0 <= N * eps) by (apply Qmult_le_0_compat; lra).
    assert (E1 : N1 * (B + eps) == (B + eps) + N * (B + eps))
      by (rewrite HS; ring).
    assert (E2 : N1 * eps == eps + N * eps) by (rewrite HS; ring).
    remember (N1 * (B + eps)) as P1.
    remember (N1 * eps) as R1.
    remember (N * (B + eps)) as P.
    remember (N * eps) as R.
    pose proof (Qabs_nonneg a) as HA0.
    assert (Ha : - Qabs a <= a /\ a <= Qabs a)
      by (apply Qabs_Qle_condition, Qle_refl).
    assert (Hb : - B <= b /\ b <= B) by (apply Qabs_Qle_condition, Hx).
    remember (Qabs a) as A.
    destruct (round64_small (a + b)) as [r [Hr Herr]].
    { rewrite <- Etop; apply Qabs_Qle_condition; lra. }
    rewrite <- Eeps in Herr; apply Qabs_Qle_condition in Herr.
    rewrite Hr.
    assert (HrA : Qabs r <= A + B + eps) by (apply Qabs_Qle_condition; lra).
    destruct (IH r Hs Hna) as [q [Hq [Hd Hm]]].
    { lra. }
    exists q; split; [exact Hq|].
    apply Qabs_Qle_condition in Hd.
    cbn [qsum fold_right qval].
    change (fold_right (fun x acc => qval x + acc) 0 s) with (qsum s).
    split; [apply Qabs_Qle_condition; lra | lra].
Qed.

Lemma fadd_not_na (x : float64) (b : Q) :
  isna x = false -> isna (fadd x (Fin b)) = false.
Proof.
  destruct x; try discriminate; intros _; cbn [fadd];
    [apply round64_not_na | reflexivity | reflexivity].
Qed.

Lemma fsum_from_not_na (s : list float64) (acc : float64) :
  forallb is_finite s = true -> isna acc = false ->
  isna (fold_left fadd s acc) = false.
Proof.
  revert acc; induction s as [|x s IH]; intros acc Hs Ha; [exact Ha|].
  cbn [forallb] in Hs; apply andb_prop in Hs; destruct Hs as [Hx Hs].
  destruct x as [b| | |]; try discriminate.
  cbn [fold_left]; apply IH; [exact Hs | apply fadd_not_na, Ha].
Qed.

(** The fill value of a row without infinite entry is never missing. *)
Lemma fill_value_not_na (s : list float64) :
  ordinary s = true -> isna (fsub hundred (nansum s)) = false.
Proof.
  intro Ho; rewrite nansum_present.
  pose proof (fsum_from_not_na (filter present s) fzero
                (filter_present_finite s Ho) eq_refl) as H.
  unfold fsum; destruct (fold_left fadd (filter present s) fzero);
    try discriminate; unfold fsub, hundred, fneg, fadd;
    [apply round64_not_na | reflexivity | reflexivity].
Qed.

Lemma length_filter_le (A : Type) (p : A -> bool) (l : list A) :
  (List.length (filter p l) <= List.length l)%nat.
Proof.
  induction l as [|x l IH]; simpl; [lia|]; destruct (p x); simpl; lia.
Qed.

Lemma fillna_length (v : float64) (s : list float64) :
  List.length (fillna v s) = List.length s.
Proof. unfold fillna; apply length_map. Qed.

Lemma count_na_le (s : list float64) : (count_na s <= List.length s)%nat.
Proof. unfold count_na; apply length_filter_le. Qed.

(** The fill value of a row of at most six percentages, each at most 1000
    in magnitude: within [7 * 2^-36] of 100 minus their sum. *)
Lemma fill_value_bounded (s : list float64) :
  within 1000 s = true -> (List.length s <= 6)%nat ->
  exists v : Q,
    fsub hundred (nansum s) = Fin v
    /\ Qabs (v - (100 - qsum s)) <= 7 * pw (-36)
    /\ Qabs v <= 8000.
Proof.
  intros Hw Hlen.
  destruct (@within_present 1000 s Hw) as [Hp Hna].
  pose proof (inject_nat_le (Nat.le_trans _ _ _ (length_filter_le present s) Hlen))
    as Hn.
  pose proof (inject_nat_nonneg (List.length (filter present s))) as Hn0.
  change (inject_Z (Z.of_nat 6)) with 6 in Hn.
  assert (He : 0 < pw (-36) /\ pw (-36) <= 1 # 1000 /\ pw 17 == 131072).
  { split; [apply pw_pos|]; split; [apply Qle_bool_iff|apply Qeq_bool_iff];
      vm_compute; reflexivity. }
  destruct He as (He0 & He1 & Etop).
  remember (pw (-36)) as eps eqn:Eeps.
  remember (inject_Z (Z.of_nat (List.length (filter present s)))) as N.
  assert (HP : N * (1000 + eps) <= 6 * (1000 + eps))
    by (apply Qmult_le_compat_r; lra).
  assert (HR : N * eps <= 6 * eps) by (apply Qmult_le_compat_r; lra).
  destruct (@fsum_from_bounded 1000 (filter present s) 0 Hp Hna)
    as [t [Ht [Hd Hm]]].
  { rewrite <- Eeps, <- HeqN, Etop; change (Qabs 0) with 0; lra. }
  rewrite <- Eeps, <- HeqN in Hd, Hm; change (Qabs 0) with 0 in Hm.
  rewrite (@qsum_filter_present s (@within_ordinary _ _ Hw)) in Hd.
  apply Qabs_Qle_condition in Hd.
  assert (Hm' : - (6 * (1000 + eps)) <= t /\ t <= 6 * (1000 + eps))
    by (apply Qabs_Qle_condition; lra).
  rewrite nansum_present; unfold fsum, fzero; rewrite Ht.
  unfold fsub, hundred, fneg, fadd.
  destruct (round64_small (100 + Qred (- t))) as [v [Hv Herr]].
  { rewrite Etop, Qred_correct; apply Qabs_Qle_condition; lra. }
  rewrite <- Eeps, Qred_correct in Herr; apply Qabs_Qle_condition in Herr.
  exists v; split; [exact Hv|].
  split; apply Qabs_Qle_condition; lra.
Qed.

(** The sum of an imputed Series of at most six percentages, each at most
    1000 in magnitude, with [k >= 1] gaps: within [48 * 2^-36] of
    [s + k * (100 - s)], where [s] is the sum of the percentages it had. *)
Lemma impute_series_sum (s : list float64) :
  within 1000 s = true -> (List.length s <= 6)%nat ->
  (0 < count_na s)%nat ->
  exists t : Q,
    fsum (impute_series s) = Fin t
    /\ Qabs (t - (qsum s + inject_Z (Z.of_nat (count_na s)) * (100 - qsum s)))
       <= 1 # 1000000000.
Proof.
  intros Hw Hlen Hk; unfold impute_series.
  rewrite (count_na_existsb _ Hk).
  destruct (@fill_value_bounded s Hw Hlen) as [v [Hv [Hd Hm]]].
  rewrite Hv.
  pose proof (@within_ordinary _ _ Hw) as Ho.
  assert (Hw8 : within 8000 (fillna (Fin v) s) = true).
  { apply within_fillna; [|exact Hm].
    apply (@within_weaken 1000); [|exact Hw].
    apply Qle_bool_iff; reflexivity. }
  assert (Hna : existsb isna (fillna (Fin v) s) = false)
    by (apply fillna_fills; reflexivity).
  pose proof (inject_nat_le Hlen) as Hn.
  pose proof (inject_nat_nonneg (List.length s)) as Hn0.
  pose proof (inject_nat_le (Nat.le_trans _ _ _ (count_na_le s) Hlen)) as Hc.
  pose proof (inject_nat_nonneg (count_na s)) as Hc0.
  change (inject_Z (Z.of_nat 6)) with 6 in Hn, Hc.
  assert (He : 0 < pw (-36) /\ 48 * pw (-36) <= 1 # 1000000000
               /\ pw 17 == 131072).
  { split; [apply pw_pos|]; split; [apply Qle_bool_iff|apply Qeq_bool_iff];
      vm_compute; reflexivity. }
  destruct He as (He0 & He1 & Etop).
  remember (pw (-36)) as eps eqn:Eeps.
  remember (inject_Z (Z.of_nat (List.length s))) as N.
  remember (inject_Z (Z.of_nat (count_na s))) as K.
  assert (HP : N * (8000 + eps) <= 6 * (8000 + eps))
    by (apply Qmult_le_compat_r; lra).
  assert (HR : N * eps <= 6 * eps) by (apply Qmult_le_compat_r; lra).
  unfold fsum, fzero.
  destruct (@fsum_from_bounded 8000 (fillna (Fin v) s) 0 Hw8 Hna)
    as [t [Ht [Hdt _]]].
  { rewrite fillna_length, <- Eeps, <- HeqN, Etop; change (Qabs 0) with 0.
    lra. }
  rewrite fillna_length, <- Eeps, <- HeqN in Hdt.
  rewrite (qsum_fillna v s Ho), <- HeqK in Hdt.
  exists t; split; [exact Ht|].
  apply Qabs_Qle_condition in Hdt; apply Qabs_Qle_condition in Hd.
  remember (qsum s) as sigma.
  assert (Hu : K * (v - (100 - sigma)) <= K * (7 * eps)).
  { rewrite !(Qmult_comm K); apply Qmult_le_compat_r; lra. }
  assert (Hl : K * (- (7 * eps)) <= K * (v - (100 - sigma))).
  { rewrite !(Qmult_comm K); apply Qmult_le_compat_r; lra. }
  assert (Hk7 : K * (7 * eps) <= 6 * (7 * eps)).
  { apply Qmult_le_compat_r; lra. }
  assert (E1 : K * (v - (100 - sigma)) == K * v - K * (100 - sigma)) by ring.
  assert (E2 : K * (- (7 * eps)) == - (K * (7 * eps))) by ring.
  rewrite E1 in Hu, Hl; rewrite E2 in Hl.
  remember (K * v) as Kv.
  remember (K * (100 - sigma)) as Kc.
  remember (K * (7 * eps)) as Ke.
  apply Qabs_Qle_condition; lra.
Qed.

(** C2, as amended.  A row with exactly one missing demographic percentage,
    the five others finite and at most 1000 in magnitude, has demographic
    percentages that add up, in binary64 arithmetic, to a number within
    1e-9 of 100 once imputed. *)
Theorem imputed_row_sums_to_100 :
  forall r : drow,
    count_na (demographic (base r)) = 1%nat ->
    within 1000 (demographic (base r)) = true ->
    exists t : Q,
      fsum (demographic (base (impute_row r))) = Fin t
      /\ Qabs (t - 100) <= 1 # 1000000000.
Proof.
  intros r Hc Hw; rewrite demographic_impute.
  destruct (@impute_series_sum (demographic (base r)) Hw) as [t [Ht Hd]].
  - apply Nat.leb_le; reflexivity.
  - rewrite Hc; lia.
  - exists t; split; [exact Ht|].
    rewrite Hc in Hd; change (inject_Z (Z.of_nat 1)) with 1 in Hd.
    apply Qabs_Qle_condition in Hd; apply Qabs_Qle_condition; lra.
Qed.

Lemma imputed_row_sums_to_100_witness :
  count_na (demographic (base scenario_row)) = 1%nat
  /\ within 1000 (demographic (base scenario_row)) = true
  /\ exists t : Q,
      fsum (demographic (base (impute_row scenario_row))) = Fin t
      /\ Qabs (t - 100) <= 1 # 1000000000.
Proof.
  split; [reflexivity|]; split; [reflexivity|].
  apply (imputed_row_sums_to_100 scenario_row); reflexivity.
Defined.

(** Without the bound on the magnitudes the sum can be far from 100: next
    to a percentage cell holding 1e30 the complement is -1e30, and the row
    adds up to 0. *)
Example huge_row_sum :
  count_na (demographic (base huge_row)) = 1%nat
  /\ fsum (demographic (base (impute_row huge_row))) = Fin 0.
Proof. split; vm_compute; reflexivity. Qed.

(** A complete row is within "at most one missing value", is passed
    through, and keeps whatever sum it had: here 60. *)
Lemma complete_row_keeps_its_sum :
  (count_na (demographic (base sixty_row)) <= 1)%nat
  /\ ordinary (demographic (base sixty_row)) = true
  /\ fsum (demographic (base (impute_row sixty_row))) = Fin 60
  /\ ~ feq (fsum (demographic (base (impute_row sixty_row)))) hundred.
Proof.
  split; [apply Nat.leb_le; reflexivity|].
  split; [reflexivity|]; split; [vm_compute; reflexivity|].
  vm_compute; discriminate.
Qed.

(** C5.  On a table without a missing demographic percentage the Imputer
    returns the table as it is. *)
Theorem imputer_idempotent_on_complete :
  forall df : frame drow, complete df = true -> imputer df = df.
Proof.
  unfold complete, imputer; induction df as [|[i r] df IH]; simpl; intro H.
  - reflexivity.
  - apply andb_prop in H; destruct H as [Hr Hdf].
    apply negb_true_iff in Hr.
    rewrite (impute_row_complete r Hr), (IH Hdf); reflexivity.
Qed.

Lemma imputer_idempotent_on_complete_witness :
  complete [(0%nat, sixty_row)] = true
  /\ imputer [(0%nat, sixty_row)] = [(0%nat, sixty_row)].
Proof.
  split; [reflexivity|].
  apply (imputer_idempotent_on_complete [(0%nat, sixty_row)]); reflexivity.
Defined.

(** C10.  The Imputer keeps the number of rows, their order and labels,
    every column outside the six demographic ones, and every demographic
    cell that had a value. *)
Theorem imputer_frame :
  forall (df : frame drow) (n i : nat) (r : drow),
    nth_error df n = Some (i, r) ->
    List.length (imputer df) = List.length df
    /\ labels (imputer df) = labels df
    /\ exists r' : drow,
        nth_error (imputer df) n = Some (i, r')
        /\ State (base r') = State (base r)
        /\ TotalPop (base r') = TotalPop (base r)
        /\ Income (base r') = Income (base r)
        /\ Male (base r') = Male (base r)
        /\ Female (base r') = Female (base r)
        /\ Female_Proportion r' = Female_Proportion r
        /\ forall (k : nat) (x : float64),
            nth_error (demographic (base r)) k = Some x ->
            isna x = false ->
            nth_error (demographic (base r')) k = Some x.
Proof.
  intros df n i r Hn; split; [|split].
  - unfold imputer; apply length_map.
  - unfold labels, imputer; rewrite map_map; reflexivity.
  - exists (impute_row r); split.
    + rewrite nth_error_imputer, Hn; reflexivity.
    + assert (Hk : forall s : list float64,
                 List.length s = 6%nat ->
                 State (set_demographic s (base r)) = State (base r)
                 /\ TotalPop (set_demographic s (base r)) = TotalPop (base r)
                 /\ Income (set_demographic s (base r)) = Income (base r)
                 /\ Male (set_demographic s (base r)) = Male (base r)
                 /\ Female (set_demographic s (base r)) = Female (base r)).
      { intros s Hs.
        destruct s as [|h [|w [|b [|m [|a [|p [|x s]]]]]]]; try discriminate.
        simpl; repeat split. }
      destruct (Hk (impute_series (demographic (base r)))) as (H1 & H2 & H3 & H4 & H5).
      { rewrite impute_series_length; reflexivity. }
      unfold impute_row; simpl Female_Proportion; simpl base.
      repeat (split; [assumption|]); split; [reflexivity|].
      intros k x Hx Hna.
      rewrite demographic_set by (rewrite impute_series_length; reflexivity).
      unfold impute_series; destruct (existsb isna (demographic (base r)));
        [|exact Hx].
      unfold fillna; rewrite nth_error_map, Hx; simpl; rewrite Hna.
      reflexivity.
Qed.

Lemma imputer_frame_witness :
  nth_error sample_frame 0 = Some (0%nat, scenario_row)
  /\ List.length (imputer sample_frame) = List.length sample_frame
  /\ labels (imputer sample_frame) = labels sample_frame
  /\ exists r' : drow,
      nth_error (imputer sample_frame) 0 = Some (0%nat, r')
      /\ State (base r') = State (base scenario_row)
      /\ TotalPop (base r') = TotalPop (base scenario_row)
      /\ Income (base r') = Income (base scenario_row)
      /\ Male (base r') = Male (base scenario_row)
      /\ Female (base r') = Female (base scenario_row)
      /\ Female_Proportion r' = Female_Proportion scenario_row
      /\ forall (k : nat) (x : float64),
          nth_error (demographic (base scenario_row)) k = Some x ->
          isna x = false ->
          nth_error (demographic (base r')) k = Some x.
Proof.
  split; [reflexivity|].
  apply (imputer_frame sample_frame 0); reflexivity.
Defined.

(* ------------------------------------------------------------------------- *)
(** * Properties of the Deduplicator *)

Section RowEquality.

Lemma feqb_refl (x : float64) : feqb x x = true.
Proof. destruct x; simpl; auto. apply Qeq_bool_iff; reflexivity. Qed.

Lemma feqb_sym (x y : float64) : feqb x y = true -> feqb y x = true.
Proof.
  destruct x, y; simpl; auto.
  rewrite !Qeq_bool_iff; intro H; symmetry; exact H.
Qed.

Lemma feqb_trans (x y z : float64) :
  feqb x y = true -> feqb y z = true -> feqb x z = true.
Proof.
  destruct x, y, z; simpl; auto; try discriminate.
  rewrite !Qeq_bool_iff; intros H1 H2; rewrite H1; exact H2.
Qed.

Lemma opt_eqb_string (x y : option string) :
  opt_eqb String.eqb x y = true <-> x = y.
Proof.
  destruct x, y; simpl; split; intro H; try discriminate; auto.
  - apply String.eqb_eq in H; congruence.
  - apply String.eqb_eq; congruence.
Qed.

Lemma opt_eqb_Z (x y : option Z) : opt_eqb Z.eqb x y = true <-> x = y.
Proof.
  destruct x, y; simpl; split; intro H; try discriminate; auto.
  - apply Z.eqb_eq in H; congruence.
  - apply Z.eqb_eq; congruence.
Qed.

Lemma row_eqb_true (r s : row) :
  row_eqb r s = true <->
  State r = State s /\ TotalPop r = TotalPop s
  /\ feqb (Hispanic r) (Hispanic s) = true
  /\ feqb (White r) (White s) = true
  /\ feqb (Black r) (Black s) = true
  /\ feqb (Native r) (Native s) = true
  /\ feqb (Asian r) (Asian s) = true
  /\ feqb (Pacific r) (Pacific s) = true
  /\ feqb (Income r) (Income s) = true
  /\ Male r = Male s /\ Female r = Female s.
Proof.
  unfold row_eqb; rewrite !andb_true_iff, !opt_eqb_string, !opt_eqb_Z.
  tauto.
Qed.

Lemma row_eqb_refl (r : row) : row_eqb r r = true.
Proof. apply row_eqb_true; repeat split; apply feqb_refl. Qed.

Lemma row_eqb_sym (r s : row) : row_eqb r s = true -> row_eqb s r = true.
Proof.
  rewrite !row_eqb_true; intros (H1 & H2 & H3 & H4 & H5 & H6 & H7 & H8 & H9 & H10 & H11).
  repeat split; auto using feqb_sym.
Qed.

Lemma row_eqb_trans (r s t : row) :
  row_eqb r s = true -> row_eqb s t = true -> row_eqb r t = true.
Proof.
  rewrite !row_eqb_true.
  intros (H1 & H2 & H3 & H4 & H5 & H6 & H7 & H8 & H9 & H10 & H11)
         (K1 & K2 & K3 & K4 & K5 & K6 & K7 & K8 & K9 & K10 & K11).
  repeat split; try congruence; eauto using feqb_trans.
Qed.

(** Identical rows are identical to the same rows. *)
Lemma row_eqb_left (r s x : row) :
  row_eqb r s = true -> row_eqb x r = row_eqb x s.
Proof.
  intro H.
  destruct (row_eqb x r) eqn:E1, (row_eqb x s) eqn:E2; auto.
  - rewrite (row_eqb_trans _ _ _ E1 H) in E2; discriminate.
  - rewrite (row_eqb_trans _ _ _ E2 (row_eqb_sym _ _ H)) in E1; discriminate.
Qed.

Lemma row_eqb_right (r s x : row) :
  row_eqb r s = true -> row_eqb r x = row_eqb s x.
Proof.
  intro H.
  destruct (row_eqb r x) eqn:E1, (row_eqb s x) eqn:E2; auto.
  - rewrite (row_eqb_trans _ _ _ (row_eqb_sym _ _ H) E1) in E2; discriminate.
  - rewrite (row_eqb_trans _ _ _ H E2) in E1; discriminate.
Qed.

Lemma row_eqb_comm (r s : row) : row_eqb r s = row_eqb s r.
Proof.
  destruct (row_eqb r s) eqn:E1, (row_eqb s r) eqn:E2; auto.
  - rewrite (row_eqb_sym _ _ E1) in E2; discriminate.
  - rewrite (row_eqb_sym _ _ E2) in E1; discriminate.
Qed.

End RowEquality.

Lemma existsb_identical (r s : row) (l : list row) :
  row_eqb r s = true -> existsb (row_eqb r) l = existsb (row_eqb s) l.
Proof.
  intro H; induction l as [|x l IH]; simpl; [reflexivity|].
  rewrite IH, (row_eqb_right r s x H); reflexivity.
Qed.

Lemma stands_for_skip (seen before : list row) (r : row) :
  stands_for seen before ->
  existsb (row_eqb r) seen = true ->
  stands_for seen (before ++ [r]).
Proof.
  intros H Hr x; rewrite existsb_app; simpl; rewrite orb_false_r, <- H.
  destruct (row_eqb x r) eqn:E; [|rewrite orb_false_r; reflexivity].
  rewrite (existsb_identical x r seen E), Hr; reflexivity.
Qed.

Lemma stands_for_keep (seen before : list row) (r : row) :
  stands_for seen before -> stands_for (r :: seen) (before ++ [r]).
Proof.
  intros H x; rewrite existsb_app; simpl; rewrite orb_false_r, H.
  apply orb_comm.
Qed.

Lemma is_repeat_at (before rs : list row) (r : row) :
  is_repeat (before ++ r :: rs) (List.length before)
  = existsb (row_eqb r) before.
Proof.
  unfold is_repeat.
  rewrite nth_error_app2, Nat.sub_diag by lia; simpl.
  rewrite firstn_app, firstn_all, Nat.sub_diag; simpl.
  rewrite app_nil_r; reflexivity.
Qed.

(** The marks of the one-pass scan are the positional ones. *)
Lemma duplicated_from_spec (rows seen before : list row) :
  stands_for seen before ->
  duplicated_from seen rows
  = map (is_repeat (before ++ rows))
        (seq (List.length before) (List.length rows)).
Proof.
  revert seen before; induction rows as [|r rs IH]; intros seen before H.
  - reflexivity.
  - cbn [duplicated_from List.length seq map].
    rewrite is_repeat_at, <- (H r).
    destruct (existsb (row_eqb r) seen) eqn:E.
    + rewrite (IH seen (before ++ [r]) (stands_for_skip r H E)).
      rewrite <- app_assoc, length_app, Nat.add_1_r; reflexivity.
    + rewrite (IH (r :: seen) (before ++ [r]) (stands_for_keep r H)).
      rewrite <- app_assoc, length_app, Nat.add_1_r; reflexivity.
Qed.

Lemma duplicated_spec (df : frame row) :
  duplicated df
  = map (is_repeat (values df)) (seq 0 (List.length (values df))).
Proof.
  unfold duplicated.
  apply (duplicated_from_spec (values df) (seen := []) (before := [])).
  intro x; reflexivity.
Qed.

Section Masks.
Variables A B : Type.

Lemma unmarked_positions (g : A -> B) (f : nat -> bool) (l : list A) (k : nat) :
  map g (unmarked l (map f (seq k (List.length l))))
  = map snd (filter (fun x => negb (f (fst x)))
                    (combine (seq k (List.length l)) (map g l))).
Proof.
  unfold unmarked; revert k; induction l as [|a l IH]; intro k.
  - reflexivity.
  - cbn [List.length seq map combine filter fst snd].
    destruct (f k); cbn [negb map fst snd]; rewrite IH; reflexivity.
Qed.

Lemma marked_positions (f : nat -> bool) (l : list A) (k : nat) :
  List.length (filter (fun b : bool => b) (map f (seq k (List.length l))))
  = List.length (filter (fun x => f (fst x))
                        (combine (seq k (List.length l)) l)).
Proof.
  revert k; induction l as [|a l IH]; intro k.
  - reflexivity.
  - cbn [List.length seq map combine filter fst].
    destruct (f k); cbn [List.length]; rewrite IH; reflexivity.
Qed.

Lemma filter_split (p : A -> bool) (l : list A) :
  (List.length (filter (fun x => negb (p x)) l)
   + List.length (filter p l) = List.length l)%nat.
Proof.
  induction l as [|a l IH]; simpl; [reflexivity|].
  destruct (p a); simpl; lia.
Qed.

Lemma range_index_labels (l : list A) (k : nat) :
  map fst (combine (seq k (List.length l)) l) = seq k (List.length l).
Proof.
  revert k; induction l as [|a l IH]; intro k; simpl; [reflexivity|].
  rewrite IH; reflexivity.
Qed.

Lemma range_index_values (l : list A) (k : nat) :
  map snd (combine (seq k (List.length l)) l) = l.
Proof.
  revert k; induction l as [|a l IH]; intro k; simpl; [reflexivity|].
  rewrite IH; reflexivity.
Qed.

Lemma range_index_length (l : list A) :
  List.length (range_index l) = List.length l.
Proof.
  unfold range_index; rewrite length_combine, length_seq; apply Nat.min_id.
Qed.

Lemma unmarked_map (g : A -> B) (l : list A) (m : list bool) :
  unmarked (map g l) m = map g (unmarked l m).
Proof.
  unfold unmarked; revert m; induction l as [|a l IH]; intros [|b m];
    try reflexivity.
  cbn [map combine filter snd]; destruct b; cbn [negb map fst];
    rewrite IH; reflexivity.
Qed.

End Masks.

(** Among the rows kept by the scan, a row has no copy when [seen] holds
    one, and exactly one copy when the scanned rows hold one. *)
Lemma copies_unmarked (rows seen : list row) (x : row) :
  copies x (unmarked rows (duplicated_from seen rows))
  = if existsb (row_eqb x) seen then 0%nat
    else if existsb (row_eqb x) rows then 1%nat else 0%nat.
Proof.
  revert seen; induction rows as [|r rs IH]; intro seen.
  - destruct (existsb (row_eqb x) seen); reflexivity.
  - cbn [duplicated_from existsb].
    destruct (existsb (row_eqb r) seen) eqn:E.
    + change (unmarked (r :: rs) (true :: duplicated_from seen rs))
        with (unmarked rs (duplicated_from seen rs)).
      rewrite IH.
      destruct (existsb (row_eqb x) seen) eqn:Ex; [reflexivity|].
      destruct (row_eqb x r) eqn:Exr; [|reflexivity].
      rewrite (existsb_identical x r seen Exr), E in Ex; discriminate.
    + change (unmarked (r :: rs) (false :: duplicated_from (r :: seen) rs))
        with (r :: unmarked rs (duplicated_from (r :: seen) rs)).
      unfold copies in *; cbn [filter existsb].
      destruct (row_eqb x r) eqn:Exr; cbn [List.length orb]; rewrite IH;
        cbn [existsb]; rewrite Exr; cbn [orb].
      * rewrite (existsb_identical x r seen Exr), E; reflexivity.
      * reflexivity.
Qed.

Lemma values_deduplicate (df : frame row) :
  values (deduplicate df) = unmarked (values df) (duplicated df).
Proof.
  unfold deduplicate, reset_index, values at 1, range_index.
  rewrite range_index_values.
  unfold drop_duplicates, values; symmetry; apply unmarked_map.
Qed.

Lemma length_values (A : Type) (df : frame A) :
  List.length (values df) = List.length df.
Proof. apply length_map. Qed.

(** C3.  The Deduplicator keeps, in their order, exactly the rows that are
    not identical across all columns to an earlier row; the new index is
    0, 1, 2, ...; the row count drops by the number of rows that repeat an
    earlier one, which is the count the script prints; every row of the
    input has exactly one identical copy left, and of two identical rows
    the later one is removed. *)
Theorem deduplicate_first_occurrences :
  forall df : frame row,
    values (deduplicate df) = first_occurrences (values df)
    /\ labels (deduplicate df) = seq 0 (List.length (deduplicate df))
    /\ duplicate_count df = repeat_count (values df)
    /\ List.length (deduplicate df)
       = (List.length df - repeat_count (values df))%nat
    /\ (forall (n : nat) (r : row),
           nth_error (values df) n = Some r ->
           copies r (values (deduplicate df)) = 1%nat)
    /\ (forall (i j : nat) (ri rj : row),
           (i < j)%nat ->
           nth_error (values df) i = Some ri ->
           nth_error (values df) j = Some rj ->
           row_eqb ri rj = true ->
           is_repeat (values df) j = true
           /\ copies ri (values (deduplicate df)) = 1%nat
           /\ copies rj (values (deduplicate df)) = 1%nat).
Proof.
  intro df.
  assert (Hvals : values (deduplicate df) = first_occurrences (values df)).
  { rewrite values_deduplicate, duplicated_spec.
    rewrite <- (map_id (unmarked _ _)).
    rewrite unmarked_positions, map_id; reflexivity. }
  assert (Hcount : duplicate_count df = repeat_count (values df)).
  { unfold duplicate_count, repeat_count, range_index.
    rewrite duplicated_spec; apply marked_positions. }
  assert (Hlen : (List.length (deduplicate df) + repeat_count (values df)
                  = List.length df)%nat).
  { rewrite <- (length_values (deduplicate df)), Hvals.
    unfold first_occurrences, repeat_count; rewrite length_map.
    rewrite filter_split, range_index_length; apply length_values. }
  assert (Hone : forall (n : nat) (r : row),
             nth_error (values df) n = Some r ->
             copies r (values (deduplicate df)) = 1%nat).
  { intros n r Hn; rewrite values_deduplicate; unfold duplicated.
    rewrite copies_unmarked; cbn [existsb].
    replace (existsb (row_eqb r) (values df)) with true; [reflexivity|].
    symmetry; apply existsb_exists; exists r; split;
      [exact (nth_error_In _ _ Hn) | apply row_eqb_refl]. }
  repeat split.
  - exact Hvals.
  - unfold deduplicate, reset_index, labels, range_index.
    rewrite range_index_labels, length_combine, length_seq, Nat.min_id.
    reflexivity.
  - exact Hcount.
  - lia.
  - exact Hone.
  - unfold is_repeat; rewrite H1.
    apply existsb_exists; exists ri; split.
    + apply (nth_error_In _ i); rewrite nth_error_firstn.
      apply Nat.ltb_lt in H; rewrite H; exact H0.
    + apply row_eqb_sym; exact H2.
  - exact (Hone i ri H0).
  - exact (Hone j rj H1).
Qed.

Lemma deduplicate_first_occurrences_witness :
  values (deduplicate dup_table) = [base scenario_row; base sixty_row]
  /\ labels (deduplicate dup_table) = [0; 1]%nat
  /\ duplicate_count dup_table = 2%nat
  /\ is_repeat (values dup_table) 3 = true
  /\ copies (base scenario_row) (values (deduplicate dup_table)) = 1%nat.
Proof.
  destruct (deduplicate_first_occurrences dup_table)
    as (Hv & Hl & Hc & _ & _ & Hij).
  destruct (Hij 2%nat 3%nat (base scenario_row) (base scenario_row))
    as (Hr & Hone & _); [lia | reflexivity | reflexivity | reflexivity |].
  split; [rewrite Hv; reflexivity|].
  split; [rewrite Hl; reflexivity|].
  split; [rewrite Hc; reflexivity|].
  split; [exact Hr | exact Hone].
Defined.

(* ------------------------------------------------------------------------- *)
(** * Properties of the Field Normalizer *)

Section Literals.

Local Open Scope char_scope.

(** What a decimal digit is not. *)
Lemma digit_facts (c : ascii) :
  is_digit c = true ->
  is_space c = false /\ (c =? "_") = false /\ (c =? "-") = false
  /\ (c =? "+") = false /\ (c =? ".") = false /\ lower c = c
  /\ currency_mark c = false /\ percent_mark c = false
  /\ c <> "i" /\ c <> "n".
Proof.
  destruct c as [[] [] [] [] [] [] [] []]; intro H; try discriminate H;
    repeat split; try reflexivity; discriminate.
Qed.

Lemma lstrip_id (l : list ascii) :
  (forall c, In c l -> is_space c = false) -> lstrip l = l.
Proof.
  destruct l as [|c l]; intro H; simpl; [reflexivity|].
  rewrite (H c (or_introl eq_refl)); reflexivity.
Qed.

Lemma strip_id (l : list ascii) :
  (forall c, In c l -> is_space c = false) -> strip l = l.
Proof.
  intro H; unfold strip; rewrite (lstrip_id l H), lstrip_id.
  - apply rev_involutive.
  - intros c Hc; apply H, in_rev; exact Hc.
Qed.

Lemma drop_underscores_id (l : list ascii) (prev : ascii) :
  (prev =? "_") = false ->
  (forall c, In c l -> (c =? "_") = false) ->
  drop_underscores prev l = Some l.
Proof.
  revert prev; induction l as [|c l IH]; intros prev Hp H; simpl.
  - rewrite Hp; reflexivity.
  - rewrite (H c (or_introl eq_refl)), Hp; simpl.
    rewrite IH; [reflexivity | apply H; left; reflexivity |].
    intros d Hd; apply H; right; exact Hd.
Qed.

Lemma span_app (p : ascii -> bool) (ds rest : list ascii) :
  forallb p ds = true ->
  match rest with [] => True | c :: _ => p c = false end ->
  span p (ds ++ rest) = (ds, rest).
Proof.
  intros Hds Hrest; induction ds as [|d ds IH]; simpl in *.
  - destruct rest as [|c rest]; simpl; [reflexivity|].
    rewrite Hrest; reflexivity.
  - apply andb_prop in Hds; destruct Hds as [Hd Hds].
    rewrite Hd, (IH Hds); reflexivity.
Qed.

Lemma digits_in (ds : list ascii) (c : ascii) :
  forallb is_digit ds = true -> In c ds -> is_digit c = true.
Proof. intros H Hc; rewrite forallb_forall in H; apply H, Hc. Qed.

Lemma chars_of_list (l : list ascii) : chars (string_of_list_ascii l) = l.
Proof. apply list_ascii_of_string_of_list_ascii. Qed.

Lemma split_sign_digit (d : ascii) (l : list ascii) :
  is_digit d = true -> split_sign (d :: l) = (false, d :: l).
Proof.
  destruct d as [[] [] [] [] [] [] [] []]; intro H; try discriminate H;
    reflexivity.
Qed.

(** [int()] reads a run of digits as the number it writes. *)
Lemma py_int_digits (ds : list ascii) :
  nonempty ds = true -> forallb is_digit ds = true ->
  py_int (string_of_list_ascii ds) = Some (digits_val ds).
Proof.
  intros Hne Hds; unfold py_int; rewrite chars_of_list.
  rewrite strip_id, drop_underscores_id.
  - destruct ds as [|d ds]; [discriminate|].
    rewrite split_sign_digit by (apply (digits_in _ _ Hds); left; reflexivity).
    rewrite Hne, Hds; reflexivity.
  - reflexivity.
  - intros c Hc; apply (digit_facts c), (digits_in _ _ Hds Hc).
  - intros c Hc; apply (digit_facts c), (digits_in _ _ Hds Hc).
Qed.

End Literals.

Section GenderSplit.

Local Open Scope char_scope.

Lemma split_on_none (sep : ascii) (l : list ascii) :
  (forall c, In c l -> (c =? sep) = false) -> split_on sep l = [l].
Proof.
  induction l as [|c l IH]; intro H; simpl; [reflexivity|].
  rewrite (H c (or_introl eq_refl)), IH; [reflexivity|].
  intros d Hd; apply H; right; exact Hd.
Qed.

Lemma split_on_app (sep : ascii) (l rest : list ascii) :
  (forall c, In c l -> (c =? sep) = false) ->
  split_on sep (l ++ sep :: rest) = l :: split_on sep rest.
Proof.
  induction l as [|c l IH]; intro H; simpl.
  - rewrite Ascii.eqb_refl; reflexivity.
  - rewrite (H c (or_introl eq_refl)), IH; [reflexivity|].
    intros d Hd; apply H; right; exact Hd.
Qed.

Lemma marked_no_underscore (ds : list ascii) (mark c : ascii) :
  forallb is_digit ds = true -> (mark =? "_") = false ->
  In c (ds ++ [mark]) -> (c =? "_") = false.
Proof.
  intros Hds Hm Hc; apply in_app_or in Hc; destruct Hc as [Hc|[Hc|[]]].
  - apply (digit_facts c), (digits_in _ _ Hds Hc).
  - subst c; exact Hm.
Qed.

Lemma parts_composite (m f : list ascii) :
  forallb is_digit m = true -> forallb is_digit f = true ->
  parts (Some (composite m f))
  = [Some (string_of_list_ascii (m ++ ["M"]));
     Some (string_of_list_ascii (f ++ ["F"]))].
Proof.
  intros Hm Hf; unfold parts, composite; rewrite chars_of_list.
  change (m ++ "M" :: "_" :: f ++ ["F"])
    with (m ++ ["M"] ++ "_" :: f ++ ["F"]).
  rewrite app_assoc, split_on_app, split_on_none; [reflexivity| |].
  - intros c Hc; apply (marked_no_underscore f "F" c Hf eq_refl Hc).
  - intros c Hc; apply (marked_no_underscore m "M" c Hm eq_refl Hc).
Qed.

(** Stripping the marker and casting: the count the digits write. *)
Lemma marked_count (ds : list ascii) (mark : ascii) :
  count_text ds = true ->
  astype_Int64 (strip_marker (Some (string_of_list_ascii (ds ++ [mark]))))
  = Ok (count_of ds).
Proof.
  unfold count_text; intro H; apply andb_prop in H; destruct H as [Hds Hok].
  unfold strip_marker; rewrite chars_of_list, removelast_last.
  destruct ds as [|d ds]; [reflexivity|].
  unfold astype_Int64; rewrite py_int_digits, Hok by (reflexivity || exact Hds).
  reflexivity.
Qed.

Lemma mapM_map (A B C : Type) (g : B -> result C) (h : A -> B) (k : A -> C)
      (l : list A) :
  (forall x, In x l -> g (h x) = Ok (k x)) ->
  mapM g (map h l) = Ok (map k l).
Proof.
  induction l as [|a l IH]; intro H; simpl; [reflexivity|].
  rewrite (H a (or_introl eq_refl)); simpl.
  rewrite IH; [reflexivity|].
  intros x Hx; apply H; right; exact Hx.
Qed.

Lemma list_max_const (A : Type) (l : list A) (f : A -> nat) (n : nat) :
  nonempty l = true -> (forall x, In x l -> f x = n) ->
  list_max (map f l) = n.
Proof.
  induction l as [|a l IH]; intros Hne H; [discriminate|].
  simpl; rewrite (H a (or_introl eq_refl)).
  destruct l as [|b l]; [simpl; lia|].
  rewrite IH; [lia | reflexivity |].
  intros x Hx; apply H; right; exact Hx.
Qed.

Lemma combine_map (A B C : Type) (f : A -> B) (g : A -> C) (l : list A) :
  combine (map f l) (map g l) = map (fun x => (f x, g x)) l.
Proof. induction l as [|a l IH]; simpl; [|rewrite IH]; reflexivity. Qed.

(** C4.  On a [GenderPop] column whose fields all read
    [<digits>M_<digits>F], the split gives for each field the male count
    and the female count the digits write, as nullable integers; a part
    with no digit, as in [M_5678F], gives a missing count. *)
Theorem split_gender_counts :
  forall fields : list (list ascii * list ascii),
    nonempty fields = true ->
    forallb (fun mf => count_text (fst mf) && count_text (snd mf)) fields
    = true ->
    split_gender (map composite_cell fields)
    = Ok (map (fun mf => (count_of (fst mf), count_of (snd mf))) fields).
Proof.
  intros fields Hne Hall.
  assert (Hin : forall mf, In mf fields ->
                           count_text (fst mf) = true
                           /\ count_text (snd mf) = true).
  { intros mf Hmf; rewrite forallb_forall in Hall.
    apply andb_prop, Hall, Hmf. }
  assert (Hdig : forall ds, count_text ds = true -> forallb is_digit ds = true).
  { intros ds H; apply andb_prop in H; tauto. }
  unfold split_gender.
  replace (nonempty (map composite_cell fields)
           && forallb is_none (map composite_cell fields)) with false
    by (destruct fields; [discriminate | reflexivity]).
  unfold str_split_expand; rewrite !map_map.
  rewrite (list_max_const fields _ (n := 2) Hne).
  2:{ intros mf Hmf; destruct (Hin mf Hmf) as [Hm Hf]; unfold composite_cell.
      rewrite parts_composite by auto; reflexivity. }
  cbn [seq map mapM]; rewrite !map_map.
  rewrite (mapM_map _ _ (fun mf => count_of (fst mf))).
  2:{ intros mf Hmf; destruct (Hin mf Hmf) as [Hm Hf]; unfold composite_cell.
      rewrite parts_composite by auto; cbn [nth].
      apply marked_count; exact Hm. }
  rewrite (mapM_map _ _ (fun mf => count_of (snd mf))).
  2:{ intros mf Hmf; destruct (Hin mf Hmf) as [Hm Hf]; unfold composite_cell.
      rewrite parts_composite by auto; cbn [nth].
      apply marked_count; exact Hf. }
  cbn [bind]; rewrite combine_map; reflexivity.
Qed.

End GenderSplit.

Lemma split_gender_counts_witness :
  split_gender [Some "1234M_5678F"%string; Some "M_5678F"%string]
  = Ok [(Some 1234%Z, Some 5678%Z); (None, Some 5678%Z)].
Proof.
  exact (split_gender_counts
           [(chars "1234", chars "5678"); ([], chars "5678")]
           eq_refl eq_refl).
Defined.

Section Currency.

Local Open Scope char_scope.

Lemma chars_eqb_head (a b : ascii) (l l' : list ascii) :
  a <> b -> chars_eqb (a :: l) (b :: l') = false.
Proof.
  intro H; unfold chars_eqb.
  destruct (list_eq_dec ascii_dec (a :: l) (b :: l')) as [E|E];
    [congruence | reflexivity].
Qed.

(** On a text that starts with a digit and holds neither blank nor
    underscore, [float()] goes straight to the decimal literal. *)
Lemma py_float_number (d : ascii) (rest : list ascii) :
  is_digit d = true ->
  (forall c, In c rest -> is_space c = false /\ (c =? "_") = false) ->
  py_float (string_of_list_ascii (d :: rest))
  = let (ip, r1) := span is_digit (d :: rest) in
    let (fp, r2) :=
      match r1 with
      | "." :: t => span is_digit t
      | _ => ([], r1)
      end in
    if nonempty (ip ++ fp) then
      match exponent r2 with
      | Some e =>
          Some (scale10 (digits_val (ip ++ fp)) (e - Z.of_nat (List.length fp)))
      | None => None
      end
    else None.
Proof.
  intros Hd Hrest; unfold py_float; rewrite chars_of_list.
  assert (Hall : forall c, In c (d :: rest) ->
                           is_space c = false /\ (c =? "_") = false).
  { intros c [Hc|Hc]; [subst c; split; apply (digit_facts d Hd) | auto]. }
  rewrite strip_id, drop_underscores_id;
    [| reflexivity | intros c Hc; apply Hall, Hc
     | intros c Hc; apply Hall, Hc].
  rewrite split_sign_digit by exact Hd.
  destruct (digit_facts d Hd) as (_ & _ & _ & _ & _ & Hl & _ & _ & Hi & Hn).
  cbn [map]; rewrite Hl.
  change (chars "inf") with ["i"; "n"; "f"].
  change (chars "infinity") with ["i"; "n"; "f"; "i"; "n"; "i"; "t"; "y"].
  change (chars "nan") with ["n"; "a"; "n"].
  rewrite !chars_eqb_head by assumption; reflexivity.
Qed.

Lemma scale10_whole (m : Z) : scale10 m 0 = round64 (inject_Z m).
Proof.
  unfold scale10; change (0 <=? 0)%Z with true; cbv iota.
  rewrite Z.pow_0_r, Z.mul_1_r; reflexivity.
Qed.

Lemma scale10_fraction (m : Z) (k : nat) :
  scale10 m (0 - Z.of_nat k) = round64 (decimal m k).
Proof.
  unfold decimal; destruct k as [|k].
  - change (0 - Z.of_nat 0)%Z with 0%Z; rewrite scale10_whole.
    apply round64_comp; unfold Qdiv.
    change (/ inject_Z (10 ^ Z.of_nat 0)) with 1; ring.
  - unfold scale10.
    assert (Hp : (0 < 10 ^ Z.of_nat (S k))%Z) by (apply Z.pow_pos_nonneg; lia).
    replace (0 <=? 0 - Z.of_nat (S k))%Z with false
      by (symmetry; apply Z.leb_gt; lia).
    replace (- (0 - Z.of_nat (S k)))%Z with (Z.of_nat (S k)) by lia.
    apply round64_comp.
    rewrite (Qmake_Qdiv m), Z2Pos.id by exact Hp; reflexivity.
Qed.

Lemma digits_val_from (ds : list ascii) (acc : Z) :
  forallb is_digit ds = true -> (0 <= acc)%Z ->
  (0 <= fold_left (fun a c => 10 * a + digit_val c) ds acc)%Z.
Proof.
  revert acc; induction ds as [|d ds IH]; intros acc Hds Hacc; [exact Hacc|].
  cbn [forallb] in Hds; apply andb_prop in Hds; destruct Hds as [Hd Hds].
  cbn [fold_left]; apply IH; [exact Hds|].
  unfold is_digit in Hd; apply andb_prop in Hd; destruct Hd as [Hd _].
  apply Nat.leb_le in Hd; unfold digit_val; lia.
Qed.

Lemma digits_val_nonneg (ds : list ascii) :
  forallb is_digit ds = true -> (0 <= digits_val ds)%Z.
Proof. intro H; apply digits_val_from; [exact H | lia]. Qed.

(** What rounding to binary64 does to a number [q >= 0]: nothing when [q]
    is a whole multiple, below [2^53] of them, of a power of two; in the
    normal range, a change of at most [q * 2^-53]. *)
Lemma round64_reading (q : Q) :
  (forall n j : Z,
      (0 <= n < 2 ^ 53)%Z -> (0 <= j <= 1074)%Z ->
      q == inject_Z n * pw (- j) -> round64 q = Fin (Qred q))
  /\ (pw (-1022) <= q -> q <= pw 1023 ->
      exists r : Q, round64 q = Fin r /\ Qabs (r - q) <= q * pw (-53)).
Proof.
  split.
  - intros n j Hn Hj Hq; apply (round64_exact q n j); [lia | exact Hj | exact Hq].
  - intros Hlo Hhi.
    assert (H0 : 0 <= q)
      by (apply (Qle_trans _ (pw (-1022))); [apply Qlt_le_weak, pw_pos | exact Hlo]).
    pose proof (Qabs_pos q H0) as Ha.
    destruct (round64_relative q) as [r [Hr He]].
    + rewrite Ha; exact Hlo.
    + rewrite Ha; exact Hhi.
    + exists r; split; [exact Hr|]; rewrite Ha in He; exact He.
Qed.

Lemma py_float_whole (ip : list ascii) :
  nonempty ip = true -> forallb is_digit ip = true ->
  py_float (string_of_list_ascii ip)
  = Some (round64 (inject_Z (digits_val ip))).
Proof.
  intros Hne Hip; destruct ip as [|d ip]; [discriminate|].
  rewrite py_float_number.
  - rewrite <- (app_nil_r (d :: ip)) at 1.
    rewrite (span_app is_digit (d :: ip) [] Hip I).
    rewrite app_nil_r; cbn [nonempty exponent List.length Z.of_nat Z.sub].
    rewrite scale10_whole; reflexivity.
  - apply (digits_in _ _ Hip); left; reflexivity.
  - intros c Hc; split; apply (digit_facts c), (digits_in _ _ Hip);
      right; exact Hc.
Qed.

Lemma py_float_fraction (ip fp : list ascii) :
  nonempty ip = true -> forallb is_digit ip = true ->
  forallb is_digit fp = true ->
  py_float (string_of_list_ascii (ip ++ "." :: fp))
  = Some (scale10 (digits_val (ip ++ fp)) (0 - Z.of_nat (List.length fp))).
Proof.
  intros Hne Hip Hfp; destruct ip as [|d ip]; [discriminate|].
  change ((d :: ip) ++ "." :: fp) with (d :: (ip ++ "." :: fp)).
  rewrite py_float_number.
  - change (d :: (ip ++ "." :: fp)) with ((d :: ip) ++ "." :: fp).
    rewrite (span_app is_digit (d :: ip) ("." :: fp) Hip eq_refl).
    rewrite <- (app_nil_r fp) at 1.
    rewrite (span_app is_digit fp [] Hfp I).
    cbn [nonempty app exponent]; reflexivity.
  - apply (digits_in _ _ Hip); left; reflexivity.
  - simpl in Hip; apply andb_prop in Hip; destruct Hip as [_ Hip].
    intros c Hc; apply in_app_or in Hc; destruct Hc as [Hc|[Hc|Hc]].
    + split; apply (digit_facts c), (digits_in _ _ Hip Hc).
    + subst c; split; reflexivity.
    + split; apply (digit_facts c), (digits_in _ _ Hfp Hc).
Qed.

End Currency.

Section IncomeCleaning.

Local Open Scope char_scope.

Lemma delete_marks (w : list ascii) :
  forallb (fun c => is_digit c || currency_mark c) w = true ->
  filter (fun c => negb (currency_mark c)) w = filter is_digit w.
Proof.
  induction w as [|c w IH]; intro H; simpl in *; [reflexivity|].
  apply andb_prop in H; destruct H as [Hc Hw].
  destruct (is_digit c) eqn:Ed.
  - destruct (digit_facts c Ed) as (_ & _ & _ & _ & _ & _ & Hm & _).
    rewrite Hm, (IH Hw); reflexivity.
  - simpl in Hc; rewrite Hc, (IH Hw); reflexivity.
Qed.

Lemma keep_digits (f : list ascii) :
  forallb is_digit f = true ->
  filter (fun c => negb (currency_mark c)) f = f.
Proof.
  induction f as [|c f IH]; intro H; simpl in *; [reflexivity|].
  apply andb_prop in H; destruct H as [Hc Hf].
  destruct (digit_facts c Hc) as (_ & _ & _ & _ & _ & _ & Hm & _).
  rewrite Hm, (IH Hf); reflexivity.
Qed.

Lemma filter_digits (w : list ascii) :
  forallb is_digit (filter is_digit w) = true.
Proof.
  induction w as [|c w IH]; simpl; [reflexivity|].
  destruct (is_digit c) eqn:E; simpl; [rewrite E|]; exact IH.
Qed.

Lemma some_digit (w : list ascii) :
  existsb is_digit w = true -> nonempty (filter is_digit w) = true.
Proof.
  induction w as [|c w IH]; simpl; [discriminate|].
  destruct (is_digit c); simpl; auto.
Qed.

(** C7, as amended.  Cleaning an Income text made of digits, currency
    symbols and digit-group separators gives the binary64 number nearest
    to the number its digits write, which is that number itself when it is
    below 2^53; with a decimal point and further digits, the binary64
    number nearest to the decimal number written: that number itself when
    it is a binary fraction of at most 53 significant bits, and a number
    within a relative error of 2^-53 of it across the normal range. *)
Theorem clean_income_rounded :
  forall w f : list ascii,
    currency_text w = true ->
    forallb is_digit f = true ->
    clean_income (Some (string_of_list_ascii w))
    = Ok (round64 (inject_Z (digits_val (filter is_digit w))))
    /\ ((digits_val (filter is_digit w) < 2 ^ 53)%Z ->
        clean_income (Some (string_of_list_ascii w))
        = Ok (Fin (inject_Z (digits_val (filter is_digit w)))))
    /\ clean_income (Some (string_of_list_ascii (w ++ "." :: f)))
       = Ok (round64 (decimal (digits_val (filter is_digit w ++ f))
                              (List.length f)))
    /\ (forall n j : Z,
           (0 <= n < 2 ^ 53)%Z -> (0 <= j <= 1074)%Z ->
           decimal (digits_val (filter is_digit w ++ f)) (List.length f)
           == inject_Z n * pw (- j) ->
           clean_income (Some (string_of_list_ascii (w ++ "." :: f)))
           = Ok (Fin (Qred (decimal (digits_val (filter is_digit w ++ f))
                                    (List.length f)))))
    /\ (pw (-1022)
        <= decimal (digits_val (filter is_digit w ++ f)) (List.length f) ->
        decimal (digits_val (filter is_digit w ++ f)) (List.length f)
        <= pw 1023 ->
        exists r : Q,
          clean_income (Some (string_of_list_ascii (w ++ "." :: f)))
          = Ok (Fin r)
          /\ Qabs (r - decimal (digits_val (filter is_digit w ++ f))
                               (List.length f))
             <= decimal (digits_val (filter is_digit w ++ f)) (List.length f)
                * pw (-53)).
Proof.
  intros w f Hw Hf; unfold currency_text in Hw.
  apply andb_prop in Hw; destruct Hw as [Hall Hex].
  assert (Hwhole : clean_income (Some (string_of_list_ascii w))
                   = Ok (round64 (inject_Z (digits_val (filter is_digit w))))).
  { unfold clean_income, option_map, delete_chars, astype_float.
    rewrite !chars_of_list, (delete_marks w Hall).
    rewrite py_float_whole; [reflexivity | apply some_digit, Hex
                            | apply filter_digits]. }
  assert (Hfrac : clean_income (Some (string_of_list_ascii (w ++ "." :: f)))
                  = Ok (round64 (decimal (digits_val (filter is_digit w ++ f))
                                         (List.length f)))).
  { unfold clean_income, option_map, delete_chars, astype_float.
    rewrite !chars_of_list, filter_app; cbn [filter].
    change (negb (currency_mark ".")) with true; cbv iota.
    rewrite (delete_marks w Hall), (keep_digits f Hf).
    rewrite py_float_fraction;
      [| apply some_digit, Hex | apply filter_digits | exact Hf].
    rewrite scale10_fraction; reflexivity. }
  destruct (round64_reading
              (decimal (digits_val (filter is_digit w ++ f)) (List.length f)))
    as [Hexact Hnear].
  split; [exact Hwhole|]; split; [|split; [exact Hfrac|split]].
  - intro Hlt; rewrite Hwhole, round64_whole; [reflexivity|].
    pose proof (digits_val_nonneg _ (filter_digits w)); lia.
  - intros n j Hn Hj Hq; rewrite Hfrac, (Hexact n j Hn Hj Hq); reflexivity.
  - intros Hlo Hhi; destruct (Hnear Hlo Hhi) as [r [Hr He]].
    exists r; rewrite Hfrac, Hr; split; [reflexivity | exact He].
Qed.

Lemma clean_income_rounded_witness :
  clean_income (Some "$45,200"%string) = Ok (Fin 45200)
  /\ clean_income (Some "$45,200.50"%string) = Ok (Fin (90401 # 2))
  /\ exists r : Q,
      clean_income (Some "$45,200.10"%string) = Ok (Fin r)
      /\ Qabs (r - decimal 4520010 2) <= decimal 4520010 2 * pw (-53).
Proof.
  destruct (clean_income_rounded (chars "$45,200") (chars "50")
              eq_refl eq_refl) as (_ & Hwhole & _ & Hexact & _).
  destruct (clean_income_rounded (chars "$45,200") (chars "10")
              eq_refl eq_refl) as (_ & _ & _ & _ & Hnear).
  split; [apply Hwhole; reflexivity|].
  split; [apply (Hexact 90401%Z 1%Z); [split | split |]; vm_compute;
          try reflexivity; discriminate|].
  apply Hnear; apply Qle_bool_iff; vm_compute; reflexivity.
Defined.

(** An amount of sixteen digits: 9007199254740993 is 2^53 + 1, which no
    binary64 number holds; the cleaned Income is 2^53, one less than the
    amount written. *)
Lemma clean_income_not_exact :
  currency_text (chars "$9,007,199,254,740,993") = true
  /\ digits_val (filter is_digit (chars "$9,007,199,254,740,993"))
     = 9007199254740993%Z
  /\ clean_income (Some "$9,007,199,254,740,993"%string)
     = Ok (Fin 9007199254740992)
  /\ ~ feq (Fin 9007199254740992) (Fin 9007199254740993).
Proof.
  split; [reflexivity|]; split; [reflexivity|].
  split; [vm_compute; reflexivity|].
  vm_compute; discriminate.
Qed.

(** An amount of 310 digits is beyond the binary64 range: the cleaned
    Income is [+inf]. *)
Example clean_income_overflow :
  clean_income
    (Some (string_of_list_ascii ("$" :: "1" :: repeat "0" 309)))
  = Ok PInf.
Proof. vm_compute; reflexivity. Qed.

End IncomeCleaning.

(* ------------------------------------------------------------------------- *)
(** * Properties of the Feature Deriver *)

(** C6, as amended.  For a row whose [TotalPop] is 0 the Feature Deriver
    raises nothing and keeps the row; its [Female_Proportion] is not a
    finite number: [+inf] for a positive female count, [-inf] for a
    negative one, and [NaN] exactly when the female count is 0 or
    missing. *)
Theorem zero_population_quotient :
  forall (df : frame row) (n i : nat) (r : row),
    nth_error df n = Some (i, r) ->
    TotalPop r = Some 0%Z ->
    exists d : drow,
      nth_error (feature_deriver df) n = Some (i, d)
      /\ base d = r
      /\ is_finite (Female_Proportion d) = false
      /\ (isna (Female_Proportion d) = true
          <-> Female r = None \/ Female r = Some 0%Z)
      /\ (forall x : Z, Female r = Some x -> (0 < x)%Z ->
                        Female_Proportion d = PInf)
      /\ (forall x : Z, Female r = Some x -> (x < 0)%Z ->
                        Female_Proportion d = NInf).
Proof.
  intros df n i r Hn Hz; exists (derive_row r).
  split; [unfold feature_deriver; rewrite nth_error_map, Hn; reflexivity|].
  split; [reflexivity|].
  unfold derive_row; cbn [Female_Proportion]; rewrite Hz; unfold truediv.
  destruct (Female r) as [x|]; cbn [Z.eqb].
  - destruct (0 <? x)%Z eqn:Ep; [|destruct (x <? 0)%Z eqn:En].
    + apply Z.ltb_lt in Ep; repeat split; try reflexivity; try discriminate.
      * intros [H|H]; [discriminate | inversion H; lia].
      * intros y Hy Hlt; inversion Hy; lia.
    + apply Z.ltb_lt in En; repeat split; try reflexivity; try discriminate.
      * intros [H|H]; [discriminate | inversion H; lia].
      * intros y Hy Hlt; inversion Hy; lia.
    + apply Z.ltb_ge in Ep; apply Z.ltb_ge in En.
      assert (x = 0%Z) by lia; subst x; repeat split; auto.
      * intros y Hy Hlt; inversion Hy; lia.
      * intros y Hy Hlt; inversion Hy; lia.
  - repeat split; auto; intros y Hy; discriminate.
Qed.

Lemma zero_population_quotient_witness :
  nth_error [(0%nat, empty_land)] 0 = Some (0%nat, empty_land)
  /\ TotalPop empty_land = Some 0%Z
  /\ exists d : drow,
      nth_error (feature_deriver [(0%nat, empty_land)]) 0 = Some (0%nat, d)
      /\ base d = empty_land
      /\ is_finite (Female_Proportion d) = false
      /\ (isna (Female_Proportion d) = true
          <-> Female empty_land = None \/ Female empty_land = Some 0%Z)
      /\ (forall x : Z, Female empty_land = Some x -> (0 < x)%Z ->
                        Female_Proportion d = PInf)
      /\ (forall x : Z, Female empty_land = Some x -> (x < 0)%Z ->
                        Female_Proportion d = NInf).
Proof.
  split; [reflexivity|]; split; [reflexivity|].
  apply (zero_population_quotient [(0%nat, empty_land)] 0); reflexivity.
Defined.

(** With a population of 0 and 600 women the quotient is [+inf], which is
    not a missing value. *)
Lemma zero_population_gives_infinity :
  TotalPop empty_land = Some 0%Z
  /\ Female_Proportion (derive_row empty_land) = PInf
  /\ isna (Female_Proportion (derive_row empty_land)) = false.
Proof. repeat split. Qed.

(* ------------------------------------------------------------------------- *)
(** * Properties of the top-5 query *)

Section FloatOrder.

Lemma fgtb_total (x y : float64) :
  isna x = false -> isna y = false -> fgtb y x = false ->
  fgtb x y = true \/ feqb x y = true.
Proof.
  destruct x as [a| | |], y as [b| | |]; simpl; intros Hx Hy H;
    try discriminate; auto.
  apply negb_false_iff in H.
  destruct (Qle_bool a b) eqn:E; [right | left; reflexivity].
  apply Qeq_bool_iff, Qle_antisym; apply Qle_bool_iff; assumption.
Qed.

Lemma fgtb_le_trans (x y z : float64) :
  isna x = false -> isna y = false -> isna z = false ->
  fgtb z y = false -> fgtb y x = false -> fgtb z x = false.
Proof.
  destruct x as [a| | |], y as [b| | |], z as [c| | |]; simpl;
    intros Hx Hy Hz H1 H2; try discriminate; auto.
  apply negb_false_iff in H1, H2; apply negb_false_iff.
  apply Qle_bool_iff in H1, H2; apply Qle_bool_iff.
  apply (Qle_trans _ b); assumption.
Qed.

Lemma fgtb_asym (x y : float64) : fgtb x y = true -> fgtb y x = false.
Proof.
  destruct x as [a| | |], y as [b| | |]; simpl; intro H;
    try discriminate; auto.
  apply negb_true_iff in H; apply negb_false_iff.
  destruct (Qle_bool b a) eqn:E; [reflexivity|].
  assert (Hab : ~ a <= b) by (rewrite <- Qle_bool_iff, H; discriminate).
  assert (Hba : ~ b <= a) by (rewrite <- Qle_bool_iff, E; discriminate).
  apply Qnot_le_lt in Hab, Hba.
  exfalso; apply (Qlt_irrefl a), (Qlt_trans _ b); assumption.
Qed.

Lemma feqb_not_gt (x y : float64) : feqb x y = true -> fgtb y x = false.
Proof.
  destruct x as [a| | |], y as [b| | |]; simpl; intro H;
    try discriminate; auto.
  apply negb_false_iff, Qle_bool_iff.
  apply Qeq_bool_iff in H; rewrite H; apply Qle_refl.
Qed.

End FloatOrder.

Section Ranking.

(** Between two rows with an income, the one with the smaller label is
    listed first as soon as the other's income is not larger. *)
Lemma outranks_earlier (x y : nat * drow) :
  isna (income_of x) = false -> isna (income_of y) = false ->
  (fst x < fst y)%nat -> fgtb (income_of y) (income_of x) = false ->
  outranks x y.
Proof.
  intros Hx Hy Hlt H; unfold outranks; rewrite Hx, Hy.
  destruct (fgtb_total _ _ Hx Hy H); auto.
Qed.

Lemma outranks_not_gt (y z : nat * drow) :
  isna (income_of y) = false -> isna (income_of z) = false ->
  outranks y z -> fgtb (income_of z) (income_of y) = false.
Proof.
  intros Hy Hz; unfold outranks; rewrite Hy, Hz.
  intros [H|[H _]]; [apply fgtb_asym | apply feqb_not_gt]; exact H.
Qed.

Lemma outranks_larger (y x : nat * drow) :
  fgtb (income_of y) (income_of x) = true -> outranks y x.
Proof.
  intro H; unfold outranks.
  destruct (income_of y), (income_of x); simpl in *; try discriminate; auto.
Qed.

Lemma in_insert_desc (x z : nat * drow) (l : list (nat * drow)) :
  In z (insert_desc income_of x l) -> z = x \/ In z l.
Proof.
  induction l as [|y l IH]; simpl.
  - intros [H|[]]; auto.
  - destruct (fgtb (income_of y) (income_of x)); simpl.
    + intros [H|H]; [auto | destruct (IH H); auto].
    + intros [H|[H|H]]; auto.
Qed.

Lemma insert_desc_perm (x : nat * drow) (l : list (nat * drow)) :
  Permutation (x :: l) (insert_desc income_of x l).
Proof.
  induction l as [|y l IH]; simpl; [apply Permutation_refl|].
  destruct (fgtb (income_of y) (income_of x)); [|apply Permutation_refl].
  apply perm_trans with (y :: x :: l); [apply perm_swap|].
  apply perm_skip, IH.
Qed.

Lemma sort_desc_perm (l : list (nat * drow)) :
  Permutation l (sort_desc income_of l).
Proof.
  induction l as [|x l IH]; simpl; [apply perm_nil|].
  apply perm_trans with (x :: sort_desc income_of l);
    [apply perm_skip, IH | apply insert_desc_perm].
Qed.

Lemma insert_desc_sorted (x : nat * drow) (l : list (nat * drow)) :
  isna (income_of x) = false ->
  Forall (fun y => isna (income_of y) = false /\ (fst x < fst y)%nat) l ->
  StronglySorted outranks l ->
  StronglySorted outranks (insert_desc income_of x l).
Proof.
  intros Hx; induction l as [|y l IH]; intros Hl Hs; simpl.
  - constructor; constructor.
  - inversion Hl as [|y' l' [Hy Hlt] Hl']; subst.
    inversion Hs as [|y' l' Hs' Hy']; subst.
    destruct (fgtb (income_of y) (income_of x)) eqn:E.
    + constructor; [apply IH; assumption|].
      apply Forall_forall; intros z Hz.
      destruct (in_insert_desc _ _ _ Hz) as [->|Hz'].
      * apply outranks_larger; exact E.
      * rewrite Forall_forall in Hy'; apply Hy', Hz'.
    + constructor; [exact Hs|].
      constructor; [apply outranks_earlier; assumption|].
      apply Forall_forall; intros z Hz.
      rewrite Forall_forall in Hl', Hy'.
      destruct (Hl' z Hz) as [Hzna Hzlt].
      apply outranks_earlier; try assumption.
      apply (fgtb_le_trans _ (income_of y)); try assumption.
      apply outranks_not_gt; auto.
Qed.

Lemma sort_desc_sorted (l : list (nat * drow)) :
  Forall (fun y => isna (income_of y) = false) l ->
  StronglySorted (fun x y => (fst x < fst y)%nat) l ->
  StronglySorted outranks (sort_desc income_of l).
Proof.
  induction l as [|x l IH]; intros Hna Hs; simpl; [constructor|].
  inversion Hna as [|x' l' Hx Hl]; subst.
  inversion Hs as [|x' l' Hs' Hlt]; subst.
  apply insert_desc_sorted; [exact Hx | | apply IH; assumption].
  apply Forall_forall; intros y Hy.
  apply (Permutation_in _ (Permutation_sym (sort_desc_perm l))) in Hy.
  rewrite Forall_forall in Hl, Hlt; split; [apply Hl | apply Hlt]; exact Hy.
Qed.

End Ranking.

Section SortedLists.
Variable A : Type.
Variable R : A -> A -> Prop.

Lemma StronglySorted_filter (p : A -> bool) (l : list A) :
  StronglySorted R l -> StronglySorted R (filter p l).
Proof.
  induction 1 as [|a l Hs IH Ha]; simpl; [constructor|].
  destruct (p a); [|exact IH].
  constructor; [exact IH|].
  apply Forall_forall; intros x Hx; apply filter_In in Hx.
  rewrite Forall_forall in Ha; apply Ha, Hx.
Qed.

Lemma StronglySorted_app (l1 l2 : list A) :
  StronglySorted R l1 -> StronglySorted R l2 ->
  (forall x y, In x l1 -> In y l2 -> R x y) ->
  StronglySorted R (l1 ++ l2).
Proof.
  induction 1 as [|a l Hs IH Ha]; intros H2 H12; simpl; [exact H2|].
  constructor.
  - apply IH; [exact H2|]; intros x y Hx Hy; apply H12; [right|]; assumption.
  - apply Forall_app; split; [exact Ha|].
    apply Forall_forall; intros y Hy; apply H12; [left; reflexivity | exact Hy].
Qed.

Lemma StronglySorted_weaken (Q : A -> A -> Prop) (l : list A) :
  (forall x y, In x l -> In y l -> R x y -> Q x y) ->
  StronglySorted R l -> StronglySorted Q l.
Proof.
  intros H Hs; induction Hs as [|a l Hs IH Ha]; [constructor|].
  constructor.
  - apply IH; intros x y Hx Hy; apply H; right; assumption.
  - apply Forall_forall; intros y Hy; rewrite Forall_forall in Ha.
    apply H; [left; reflexivity | right; exact Hy | apply Ha, Hy].
Qed.

Lemma filter_partition (p : A -> bool) (l : list A) :
  Permutation l (filter p l ++ filter (fun x => negb (p x)) l).
Proof.
  induction l as [|a l IH]; simpl; [apply perm_nil|].
  destruct (p a); simpl; [apply perm_skip, IH|].
  apply Permutation_cons_app, IH.
Qed.

End SortedLists.

Lemma seq_sorted (n k : nat) : StronglySorted lt (seq k n).
Proof.
  revert k; induction n as [|n IH]; intro k; simpl; constructor; [apply IH|].
  apply Forall_forall; intros x Hx; apply in_seq in Hx; lia.
Qed.

Lemma labels_sorted (A : Type) (df : frame A) :
  StronglySorted lt (labels df) ->
  StronglySorted (fun x y => (fst x < fst y)%nat) df.
Proof.
  unfold labels; induction df as [|x df IH]; simpl; intro H; [constructor|].
  inversion H as [|a l Hs Ha]; subst; constructor; [apply IH, Hs|].
  rewrite Forall_map in Ha; exact Ha.
Qed.

(** The full ranking of which [nlargest] takes a prefix. *)
Lemma ranking_sorted (df : frame drow) :
  dense_index df ->
  StronglySorted outranks
    (sort_desc income_of (filter (fun x => negb (isna (income_of x))) df)
     ++ filter (fun x => isna (income_of x)) df).
Proof.
  intro Hd; unfold dense_index in Hd.
  assert (Hs : StronglySorted (fun x y => (fst x < fst y)%nat) df).
  { apply labels_sorted; rewrite Hd; apply seq_sorted. }
  apply StronglySorted_app.
  - apply sort_desc_sorted; [|apply StronglySorted_filter, Hs].
    apply Forall_forall; intros x Hx; apply filter_In in Hx.
    apply negb_true_iff, Hx.
  - apply StronglySorted_weaken
      with (R := fun x y : nat * drow => (fst x < fst y)%nat);
      [|apply StronglySorted_filter, Hs].
    intros x y Hx Hy Hlt; apply filter_In in Hx, Hy.
    unfold outranks; destruct Hx as [_ ->], Hy as [_ ->]; exact Hlt.
  - intros x y Hx Hy.
    apply (Permutation_in _ (Permutation_sym (sort_desc_perm _))) in Hx.
    apply filter_In in Hx, Hy; destruct Hx as [_ Hx], Hy as [_ Hy].
    apply negb_true_iff in Hx; unfold outranks; rewrite Hx, Hy; exact I.
Qed.

Lemma ranking_perm (df : frame drow) :
  Permutation df
    (sort_desc income_of (filter (fun x => negb (isna (income_of x))) df)
     ++ filter (fun x => isna (income_of x)) df).
Proof.
  apply perm_trans
    with (filter (fun x => negb (isna (income_of x))) df
          ++ filter (fun x => isna (income_of x)) df).
  - apply perm_trans
      with (filter (fun x => isna (income_of x)) df
            ++ filter (fun x => negb (isna (income_of x))) df);
      [apply filter_partition | apply Permutation_app_comm].
  - apply Permutation_app_tail, sort_desc_perm.
Qed.

(** C8, as amended.  On a table with the dense zero-based index the query
    returns the first min(5, number of rows) rows of the ranking of the
    whole table by income: larger incomes first, equal incomes in the
    original row order, rows without income last.  The rows returned are
    different rows of the table, and list different states when no state
    occurs twice in the table. *)
Theorem top_income_ranking :
  forall df : frame drow,
    dense_index df ->
    exists rest : frame drow,
      top_income_states df = map summary (nlargest income_of 5 df)
      /\ Permutation df (nlargest income_of 5 df ++ rest)
      /\ StronglySorted outranks (nlargest income_of 5 df ++ rest)
      /\ List.length (top_income_states df) = Nat.min 5 (List.length df)
      /\ (NoDup (map state_of df) ->
          NoDup (listed_states (top_income_states df))).
Proof.
  intros df Hd.
  set (ranking := sort_desc income_of
                    (filter (fun x => negb (isna (income_of x))) df)
                  ++ filter (fun x => isna (income_of x)) df).
  assert (Hp : Permutation df ranking) by apply ranking_perm.
  assert (Htop : nlargest income_of 5 df = firstn 5 ranking) by reflexivity.
  exists (skipn 5 ranking); rewrite Htop, firstn_skipn.
  split; [reflexivity|]; split; [exact Hp|].
  split; [apply ranking_sorted, Hd|]; split.
  - unfold top_income_states; rewrite length_map, Htop, length_firstn.
    rewrite (Permutation_length Hp); reflexivity.
  - intro Hnd; unfold top_income_states, listed_states.
    rewrite map_map, Htop.
    change (fun x : nat * drow => fst (fst (snd (summary x)))) with state_of.
    apply (Permutation_NoDup (Permutation_map state_of Hp)) in Hnd.
    rewrite <- (firstn_skipn 5 ranking), map_app in Hnd.
    apply NoDup_app_remove_r in Hnd; exact Hnd.
Qed.

Lemma top_income_ranking_witness :
  dense_index six_rows
  /\ exists rest : frame drow,
      top_income_states six_rows
      = map summary (nlargest income_of 5 six_rows)
      /\ Permutation six_rows (nlargest income_of 5 six_rows ++ rest)
      /\ StronglySorted outranks (nlargest income_of 5 six_rows ++ rest)
      /\ List.length (top_income_states six_rows)
         = Nat.min 5 (List.length six_rows)
      /\ (NoDup (map state_of six_rows) ->
          NoDup (listed_states (top_income_states six_rows))).
Proof.
  split; [reflexivity|].
  apply (@top_income_ranking six_rows); reflexivity.
Defined.

(** Two incomes of 61000: the row with the smaller label is listed first. *)
Example top_income_ties :
  labels (top_income_states six_rows) = [3; 1; 4; 0; 2]%nat.
Proof. reflexivity. Qed.

(** A run on three records answers with three rows; a run on six records
    of which two are for the state [Test] lists that state twice. *)
Lemma top_five_not_five_distinct :
  (exists rep : report,
      run [states0] = Ok rep /\ List.length (top5 rep) = 3%nat)
  /\ (exists rep : report,
         run [states0; states1] = Ok rep
         /\ listed_states (top5 rep)
            = [Some "Test"; Some "Gaps"; Some "East"; Some "Test";
               Some "Sixty"]%string
         /\ ~ NoDup (listed_states (top5 rep))).
Proof.
  split.
  - eexists; split; [vm_compute; reflexivity | reflexivity].
  - eexists; split; [vm_compute; reflexivity|].
    split; [reflexivity|].
    intro H; inversion H as [|x l Hin _]; subst.
    apply Hin; simpl; auto.
Qed.

(* ------------------------------------------------------------------------- *)
(** * Fatal errors of the loader and the normalizer *)

Section Raising.
Variables A B : Type.
Variable f : A -> result B.

Lemma mapM_raise (l : list A) (x : A) (e : exn) :
  In x l -> f x = Raise e -> exists e', mapM f l = Raise e'.
Proof.
  induction l as [|a l IH]; intros Hin Hx; [destruct Hin|].
  simpl; destruct Hin as [->|Hin].
  - rewrite Hx; exists e; reflexivity.
  - destruct (f a); simpl; [|eauto].
    destruct (IH Hin Hx) as [e' He']; rewrite He'; simpl; eauto.
Qed.

Lemma mapM_length (l : list A) (l' : list B) :
  mapM f l = Ok l' -> List.length l' = List.length l.
Proof.
  revert l'; induction l as [|a l IH]; intros l' H; simpl in H.
  - inversion H; reflexivity.
  - destruct (f a); simpl in H; [|discriminate].
    destruct (mapM f l) as [bs|]; simpl in H; [|discriminate].
    inversion H; simpl; rewrite (IH bs); reflexivity.
Qed.

End Raising.

Lemma in_combine_left (A B : Type) (l : list A) (l' : list B) (x : A) :
  In x l -> List.length l' = List.length l ->
  exists y, In (x, y) (combine l l').
Proof.
  revert l'; induction l as [|a l IH]; intros l' Hin Hlen; [destruct Hin|].
  destruct l' as [|b l']; [discriminate|]; simpl.
  destruct Hin as [->|Hin]; [exists b; auto|].
  destruct (IH l' Hin) as [y Hy]; [simpl in Hlen; lia | eauto].
Qed.

Lemma mapM_columns_length (g : option string -> result (option Z))
      (n : nat) (X : list (list (option string)))
      (cols : list (list (option Z))) :
  Forall (fun x => List.length x = n) X ->
  mapM (mapM g) X = Ok cols ->
  Forall (fun y => List.length y = n) cols.
Proof.
  revert cols; induction X as [|x X IH]; intros cols HX H; simpl in H.
  - inversion H; constructor.
  - inversion HX as [|x' X' Hx HX']; subst.
    destruct (mapM g x) as [m|] eqn:Em; simpl in H; [|discriminate].
    destruct (mapM (mapM g) X) as [ms|] eqn:Ems; simpl in H; [|discriminate].
    inversion H; constructor; [apply (mapM_length _ _ Em) | apply IH; auto].
Qed.

Lemma split_gender_length (col : list (option string))
      (g : list (option Z * option Z)) :
  split_gender col = Ok g -> List.length g = List.length col.
Proof.
  unfold split_gender.
  destruct (nonempty col && forallb is_none col); [discriminate|].
  destruct (mapM _ (str_split_expand col)) as [cols|] eqn:E;
    simpl; [|discriminate].
  assert (H : Forall (fun y => List.length y = List.length col) cols).
  { eapply mapM_columns_length; [|exact E].
    unfold str_split_expand; apply Forall_forall; intros x Hx.
    apply in_map_iff in Hx; destruct Hx as [j [<- _]].
    rewrite !length_map; reflexivity. }
  destruct cols as [|m [|f' [|x cols]]]; try discriminate.
  intro Hg; inversion Hg; subst.
  inversion H as [|? ? Hm H']; inversion H' as [|? ? Hf _]; subst.
  rewrite length_combine, Hm, Hf; apply Nat.min_id.
Qed.

(** A part that cannot be cast stops the split of the whole column. *)
Lemma split_gender_raise (col : list (option string)) (c p : option string)
      (e : exn) :
  In c col -> In p (parts c) ->
  astype_Int64 (strip_marker p) = Raise e ->
  exists e', split_gender col = Raise e'.
Proof.
  intros Hc Hp He; unfold split_gender.
  destruct (nonempty col && forallb is_none col); [eauto|].
  destruct (In_nth _ _ None Hp) as [j [Hj Hnth]].
  assert (Hw : (j < list_max (map (@List.length _) (map parts col)))%nat).
  { assert (Hle : (list_max (map (@List.length _) (map parts col))
                   <= list_max (map (@List.length _) (map parts col)))%nat)
      by lia.
    rewrite list_max_le, Forall_forall in Hle.
    specialize (Hle (List.length (parts c))).
    assert (In (List.length (parts c))
               (map (@List.length _) (map parts col)))
      by (apply in_map, in_map, Hc).
    specialize (Hle H); lia. }
  assert (Hin : In p (map (fun ps => nth j ps None) (map parts col))).
  { apply in_map_iff; exists (parts c); split; [exact Hnth|].
    apply in_map, Hc. }
  destruct (@mapM_raise _ _ (fun c => astype_Int64 (strip_marker c))
              _ p e Hin He) as [e1 He1].
  assert (Hcol : In (map (fun ps => nth j ps None) (map parts col))
                    (str_split_expand col)).
  { unfold str_split_expand; apply in_map_iff; exists j; split; auto.
    apply in_seq; lia. }
  destruct (@mapM_raise _ _
              (mapM (fun c => astype_Int64 (strip_marker c)))
              _ _ e1 Hcol He1) as [e' He'].
  rewrite He'; simpl; eauto.
Qed.

Lemma mapM_nth (A B : Type) (f : A -> result B) (l : list A) (l' : list B)
      (n : nat) (x : A) :
  mapM f l = Ok l' -> nth_error l n = Some x ->
  exists y, nth_error l' n = Some y /\ f x = Ok y.
Proof.
  revert l' n; induction l as [|a l IH]; intros l' n H Hn.
  - destruct n; discriminate.
  - simpl in H; destruct (f a) as [b|] eqn:Ea; simpl in H; [|discriminate].
    destruct (mapM f l) as [bs|] eqn:Ebs; simpl in H; [|discriminate].
    inversion H; subst; destruct n as [|n]; simpl in *.
    + inversion Hn; subst; eauto.
    + apply (IH bs n eq_refl Hn).
Qed.

Ltac stage :=
  match goal with
  | |- exists e, bind ?m _ = Raise e =>
      let E := fresh "E" in
      destruct m eqn:E; cbn [bind]; [|eauto]
  end.

Lemma normalize_missing_column (raw : raw_frame) (c : string) :
  In c needed_columns -> has (columns raw) c = false ->
  exists e, normalize raw = Raise e.
Proof.
  intros Hc Hno; unfold normalize.
  destruct Hc as [<-|[<-|Hc]].
  - unfold get_column; rewrite Hno; cbn [bind]; eauto.
  - do 2 stage; unfold get_column; rewrite Hno; cbn [bind]; eauto.
  - do 4 stage; unfold select_columns.
    replace (forallb (has (columns raw)) required_columns) with false;
      [cbn [bind]; eauto|].
    symmetry; apply not_true_is_false; intro H.
    rewrite forallb_forall in H; rewrite (H c Hc) in Hno; discriminate.
Qed.

Lemma normalize_bad_income (raw : raw_frame) (r : raw_row) (s : string) :
  In r (raw_rows raw) -> raw_Income r = Some s ->
  py_float (delete_chars currency_mark s) = None ->
  exists e, normalize raw = Raise e.
Proof.
  intros Hr Hs Hbad; unfold normalize; stage.
  destruct (@mapM_raise _ _ clean_income (map raw_Income (raw_rows raw))
              (raw_Income r) ValueError) as [e He].
  - apply in_map, Hr.
  - rewrite Hs; unfold clean_income, option_map, astype_float.
    rewrite Hbad; reflexivity.
  - rewrite He; cbn [bind]; eauto.
Qed.

Lemma normalize_bad_count (raw : raw_frame) (r : raw_row)
      (p : option string) (t : string) :
  In r (raw_rows raw) -> In p (parts (raw_GenderPop r)) ->
  strip_marker p = Some t -> py_int t = None ->
  exists e, normalize raw = Raise e.
Proof.
  intros Hr Hp Ht Hbad; unfold normalize; do 3 stage.
  destruct (@split_gender_raise (map raw_GenderPop (raw_rows raw))
              (raw_GenderPop r) p ValueError) as [e He].
  - apply in_map, Hr.
  - exact Hp.
  - rewrite Ht; unfold astype_Int64; rewrite Hbad; reflexivity.
  - rewrite He; cbn [bind]; eauto.
Qed.

Lemma normalize_row_bad_percent (r : raw_row) (s : string) (inc : float64)
      (mf : option Z * option Z) :
  In (Some s) (raw_demographic r) ->
  py_float (delete_chars percent_mark s) = None ->
  exists e, normalize_row r inc mf = Raise e.
Proof.
  intros Hs Hbad.
  assert (Hc : clean_percent (Some s) = Raise ValueError).
  { unfold clean_percent, option_map, astype_float; rewrite Hbad.
    reflexivity. }
  unfold normalize_row, raw_demographic in *.
  destruct Hs as [H|[H|[H|[H|[H|[H|[]]]]]]];
    repeat (first [ rewrite H, Hc; cbn [bind]; solve [eauto] | stage ]).
Qed.

Lemma normalize_bad_percent (raw : raw_frame) (r : raw_row) (s : string) :
  In r (raw_rows raw) -> In (Some s) (raw_demographic r) ->
  py_float (delete_chars percent_mark s) = None ->
  exists e, normalize raw = Raise e.
Proof.
  intros Hr Hs Hbad; unfold normalize; stage.
  destruct (mapM clean_income _) as [income|] eqn:Ei; cbn [bind]; [|eauto].
  stage.
  destruct (split_gender _) as [gender|] eqn:Eg; cbn [bind]; [|eauto].
  stage.
  destruct (in_combine_left (raw_rows raw) income r Hr) as [inc Hinc].
  { rewrite (mapM_length _ _ Ei), length_map; reflexivity. }
  destruct (in_combine_left (combine (raw_rows raw) income) gender
                            (r, inc) Hinc) as [mf Hmf].
  { rewrite (split_gender_length _ Eg), length_combine, length_map.
    rewrite (mapM_length _ _ Ei), length_map; symmetry; apply Nat.min_id. }
  destruct (@normalize_row_bad_percent r s inc mf Hs Hbad) as [e He].
  destruct (@mapM_raise _ _
              (fun x => normalize_row (fst (fst x)) (snd (fst x)) (snd x))
              _ (r, inc, mf) e Hmf He) as [e' He'].
  rewrite He'; cbn [bind]; eauto.
Qed.

Lemma run_raises (files : list csv_file) :
  (forall raw, pd_concat files = Ok raw -> exists e, normalize raw = Raise e) ->
  exists e, run files = Raise e.
Proof.
  intro H; unfold run.
  destruct (pd_concat files) as [raw|e] eqn:E; cbn [bind]; [|eauto].
  destruct (H raw eq_refl) as [e He]; rewrite He; cbn [bind]; eauto.
Qed.

Lemma pd_concat_ok (files : list csv_file) (raw : raw_frame) :
  pd_concat files = Ok raw ->
  columns raw = nodup string_dec (List.concat (map header files))
  /\ raw_rows raw = List.concat (map read_csv files).
Proof.
  destruct files as [|f files]; simpl; intro H; [discriminate|].
  inversion H; split; reflexivity.
Qed.

Lemma absent_column (files : list csv_file) (raw : raw_frame) (c : string) :
  pd_concat files = Ok raw ->
  (forall f, In f files -> ~ In c (header f)) ->
  has (columns raw) c = false.
Proof.
  intros Hraw Hno; destruct (@pd_concat_ok _ _ Hraw) as [Hcols _].
  unfold has; destruct (in_dec string_dec c (columns raw)) as [Hin|];
    [|reflexivity].
  rewrite Hcols, nodup_In, in_concat in Hin.
  destruct Hin as [h [Hh Hc]]; apply in_map_iff in Hh.
  destruct Hh as [f [<- Hf]]; destruct (Hno f Hf Hc).
Qed.

(** The rows of a normalized table hold the [TotalPop] of the records. *)
Lemma normalize_population (raw : raw_frame) (df : frame row) (r : raw_row) :
  normalize raw = Ok df -> In r (raw_rows raw) ->
  exists x : row, In x (values df) /\ TotalPop x = raw_TotalPop r.
Proof.
  unfold normalize.
  destruct (get_column "Income" raw); cbn [bind]; [|discriminate].
  destruct (mapM clean_income _) as [income|] eqn:Ei; cbn [bind];
    [|discriminate].
  destruct (get_column "GenderPop" raw); cbn [bind]; [|discriminate].
  destruct (split_gender _) as [gender|] eqn:Eg; cbn [bind]; [|discriminate].
  destruct (select_columns raw); cbn [bind]; [|discriminate].
  destruct (mapM _ (combine _ gender)) as [rows|] eqn:Er; cbn [bind];
    [|discriminate].
  intros H Hr; inversion H; subst df; clear H.
  unfold values, range_index; rewrite range_index_values.
  destruct (in_combine_left (raw_rows raw) income r Hr) as [inc Hinc].
  { rewrite (mapM_length _ _ Ei), length_map; reflexivity. }
  destruct (in_combine_left (combine (raw_rows raw) income) gender
                            (r, inc) Hinc) as [mf Hmf].
  { rewrite (split_gender_length _ Eg), length_combine, length_map.
    rewrite (mapM_length _ _ Ei), length_map; symmetry; apply Nat.min_id. }
  apply In_nth_error in Hmf; destruct Hmf as [n Hn].
  destruct (@mapM_nth _ _ _ _ _ n _ Er Hn) as [x [Hx Hrow]].
  exists x; split; [apply (nth_error_In _ _ Hx)|].
  cbn [fst snd] in Hrow; unfold normalize_row in Hrow.
  repeat match type of Hrow with
         | bind ?m _ = Ok _ =>
             destruct m; cbn [bind] in Hrow; [|discriminate]
         end.
  inversion Hrow; reflexivity.
Qed.

(** Every row of a table has an identical row in the deduplicated one. *)
Lemma deduplicate_keeps (df : frame row) (x : row) :
  In x (values df) ->
  exists y : row, In y (values (deduplicate df)) /\ row_eqb x y = true.
Proof.
  intro Hx; rewrite values_deduplicate; unfold duplicated.
  pose proof (copies_unmarked (values df) [] x) as Hc.
  cbn [existsb] in Hc.
  replace (existsb (row_eqb x) (values df)) with true in Hc.
  2:{ symmetry; apply existsb_exists; exists x; split;
        [exact Hx | apply row_eqb_refl]. }
  unfold copies in Hc.
  destruct (filter (row_eqb x)
              (unmarked (values df) (duplicated_from [] (values df))))
    as [|y l] eqn:E; [discriminate|].
  assert (Hy : In y (y :: l)) by (left; reflexivity).
  rewrite <- E in Hy; apply filter_In in Hy.
  exists y; exact Hy.
Qed.

Lemma polyfit_raises (df : frame drow) (i : nat) (d : drow) :
  In (i, d) df -> is_finite (Female_Proportion d) = false ->
  exists e, polyfit df = Raise e.
Proof.
  intros Hin Hd; unfold polyfit.
  destruct df as [|ir df]; [eauto|].
  destruct (forallb _ (ir :: df)) eqn:E; [|eauto].
  rewrite forallb_forall in E; specialize (E (i, d) Hin); cbn [snd] in E.
  rewrite Hd in E; discriminate.
Qed.

Lemma truediv_no_population (f t : option Z) :
  t = None \/ t = Some 0%Z -> is_finite (truediv f t) = false.
Proof.
  intros [->| ->]; destruct f as [x|]; try reflexivity.
  unfold truediv; cbn [Z.eqb].
  destruct (0 <? x)%Z; [reflexivity|]; destruct (x <? 0)%Z; reflexivity.
Qed.

(** A record without population, or with a population of 0, makes the
    trend line of line 121 fail if nothing failed before. *)
Lemma run_no_population (files : list csv_file) (r : raw_row) :
  In r (List.concat (map read_csv files)) ->
  raw_TotalPop r = None \/ raw_TotalPop r = Some 0%Z ->
  exists e, run files = Raise e.
Proof.
  intros Hr Hpop; unfold run.
  destruct (pd_concat files) as [raw|e] eqn:Eraw; cbn [bind]; [|eauto].
  destruct (normalize raw) as [df|e] eqn:Edf; cbn [bind]; [|eauto].
  destruct (@pd_concat_ok _ _ Eraw) as [_ Hrows].
  rewrite <- Hrows in Hr.
  destruct (@normalize_population _ _ _ Edf Hr) as [x [Hx Hpx]].
  destruct (@deduplicate_keeps df x Hx) as [y [Hy Hxy]].
  apply row_eqb_true in Hxy; destruct Hxy as (_ & Hty & _).
  unfold values in Hy; apply in_map_iff in Hy.
  destruct Hy as [[i y'] [Hy' Hin]]; cbn [snd] in Hy'; subst y'.
  destruct (@polyfit_raises (feature_deriver (deduplicate df)) i (derive_row y))
    as [e He].
  - unfold feature_deriver.
    apply (in_map (fun ir => (fst ir, derive_row (snd ir))) _ _ Hin).
  - unfold derive_row; cbn [Female_Proportion].
    apply truediv_no_population; rewrite <- Hty, Hpx; exact Hpop.
  - rewrite He; cbn [bind]; eauto.
Qed.

(** C9, as amended.  A run on no input file ends at once with an
    exception, and so does a run on files that all lack a column the
    script reads by name, or that hold an income, a percentage or a gender
    count whose ASCII text is not a number once the formatting characters
    are stripped, or a record whose population is missing or 0 (the trend
    line of line 121 then fails); no report is produced. *)
Theorem malformed_input_is_fatal :
  forall files : list csv_file,
    run [] = Raise ValueError
    /\ (forall c : string,
           In c needed_columns ->
           (forall f, In f files -> ~ In c (header f)) ->
           exists e, run files = Raise e)
    /\ (forall (r : raw_row) (s : string),
           In r (List.concat (map read_csv files)) ->
           raw_Income r = Some s ->
           is_ascii s = true ->
           py_float (delete_chars currency_mark s) = None ->
           exists e, run files = Raise e)
    /\ (forall (r : raw_row) (s : string),
           In r (List.concat (map read_csv files)) ->
           In (Some s) (raw_demographic r) ->
           is_ascii s = true ->
           py_float (delete_chars percent_mark s) = None ->
           exists e, run files = Raise e)
    /\ (forall (r : raw_row) (s : string) (p : option string) (t : string),
           In r (List.concat (map read_csv files)) ->
           raw_GenderPop r = Some s ->
           is_ascii s = true ->
           In p (parts (Some s)) ->
           strip_marker p = Some t ->
           py_int t = None ->
           exists e, run files = Raise e)
    /\ (forall r : raw_row,
           In r (List.concat (map read_csv files)) ->
           raw_TotalPop r = None \/ raw_TotalPop r = Some 0%Z ->
           exists e, run files = Raise e).
Proof.
  intro files; split; [reflexivity|]; repeat split.
  - intros c Hc Hno; apply run_raises; intros raw Hraw.
    eapply normalize_missing_column; [exact Hc|].
    eapply absent_column; eassumption.
  - intros r s Hr Hs _ Hbad; apply run_raises; intros raw Hraw.
    destruct (@pd_concat_ok _ _ Hraw) as [_ Hrows].
    apply (@normalize_bad_income raw r s); [rewrite Hrows| |]; assumption.
  - intros r s Hr Hs _ Hbad; apply run_raises; intros raw Hraw.
    destruct (@pd_concat_ok _ _ Hraw) as [_ Hrows].
    apply (@normalize_bad_percent raw r s); [rewrite Hrows| |]; assumption.
  - intros r s p t Hr Hs _ Hp Ht Hbad; apply run_raises; intros raw Hraw.
    destruct (@pd_concat_ok _ _ Hraw) as [_ Hrows].
    apply (@normalize_bad_count raw r p t);
      [rewrite Hrows| rewrite Hs | |]; assumption.
  - intros r Hr Hpop; apply (@run_no_population files r Hr Hpop).
Qed.

Lemma malformed_input_is_fatal_witness :
  run [] = Raise ValueError
  /\ (exists e, run [no_income_file] = Raise e)
  /\ (exists e, run malformed_files = Raise e)
  /\ (exists e, run [mkCsv census_header [bad_percent_record]] = Raise e)
  /\ (exists e, run [mkCsv census_header [bad_count_record]] = Raise e)
  /\ (exists e, run [mkCsv census_header [no_population_record]] = Raise e).
Proof.
  destruct (malformed_input_is_fatal [no_income_file])
    as (H0 & Hcol & _).
  destruct (malformed_input_is_fatal malformed_files)
    as (_ & _ & Hinc & _).
  destruct (malformed_input_is_fatal [mkCsv census_header [bad_percent_record]])
    as (_ & _ & _ & Hpct & _).
  destruct (malformed_input_is_fatal [mkCsv census_header [bad_count_record]])
    as (_ & _ & _ & _ & Hcnt & _).
  destruct (malformed_input_is_fatal
              [mkCsv census_header [no_population_record]])
    as (_ & _ & _ & _ & _ & Hpop).
  split; [exact H0|]; split; [|split; [|split; [|split]]].
  - apply (Hcol "Income"%string); [left; reflexivity|].
    intros f [<-|[]] Hin; simpl in Hin.
    repeat (destruct Hin as [Hin|Hin]; [discriminate|]); exact Hin.
  - apply (Hinc bad_income_record "$n/a"%string);
      [right; right; right; left|..]; reflexivity.
  - apply (Hpct bad_percent_record "five%"%string);
      [left; reflexivity | | reflexivity | reflexivity].
    do 4 right; left; reflexivity.
  - apply (Hcnt bad_count_record "4x0M_600F"%string (Some "4x0M"%string)
                "4x0"%string);
      [left; reflexivity | reflexivity | reflexivity | left; reflexivity
       | reflexivity | reflexivity].
  - apply (Hpop no_population_record); [left; reflexivity|].
    left; reflexivity.
Defined.

(** The exceptions of these runs. *)
Example malformed_runs :
  run [no_income_file] = Raise KeyError
  /\ run malformed_files = Raise ValueError
  /\ run [mkCsv census_header [bad_count_record]] = Raise ValueError
  /\ run [mkCsv census_header [no_population_record]] = Raise LinAlgError.
Proof. repeat split; vm_compute; reflexivity. Qed.

(** A column missing from one file only: the concatenation fills it with
    missing cells, nothing is raised, and the Imputer turns the gaps of
    [Hispanic] into complements. *)
Lemma column_missing_in_one_file :
  ~ In "Hispanic"%string (header no_hispanic_file)
  /\ exists rep : report,
      run [states0; no_hispanic_file] = Ok rep
      /\ List.length (cleaned rep) = 6%nat
      /\ map (fun ir => Hispanic (base (snd ir))) (cleaned rep)
         = [Fin 10; Fin 10; Fin 10; Fin 20; Fin 20; Fin 20].
Proof.
  split.
  - simpl; intro H.
    repeat (destruct H as [H|H]; [discriminate|]); exact H.
  - eexists; split; [vm_compute; reflexivity|].
    split; reflexivity.
Qed.

(* ------------------------------------------------------------------------- *)
(** * One composite field among arbitrary others *)

Lemma nth_error_combine (A B : Type) (l : list A) (l' : list B) (n : nat)
      (a : A) (b : B) :
  nth_error l n = Some a -> nth_error l' n = Some b ->
  nth_error (combine l l') n = Some (a, b).
Proof.
  revert l' n; induction l as [|x l IH]; intros [|y l'] [|n] Ha Hb;
    try discriminate; simpl in *.
  - inversion Ha; inversion Hb; reflexivity.
  - apply IH; assumption.
Qed.

(** X10.  A well-formed field gives its two counts whatever the other
    fields of the column are, as long as the split of the column
    succeeds. *)
Lemma split_gender_field (col : list (option string)) (n : nat)
      (m f : list ascii) (g : list (option Z * option Z)) :
  nth_error col n = Some (Some (composite m f)) ->
  count_text m = true -> count_text f = true ->
  split_gender col = Ok g ->
  nth_error g n = Some (count_of m, count_of f).
Proof.
  intros Hn Hm Hf; unfold split_gender.
  destruct (nonempty col && forallb is_none col); [discriminate|].
  destruct (mapM _ (str_split_expand col)) as [cols|] eqn:E;
    simpl; [|discriminate].
  destruct cols as [|mc [|fc [|x cols]]]; try discriminate.
  intro Hg; inversion Hg; subst g; clear Hg.
  pose proof (mapM_length _ _ E) as Hlen.
  unfold str_split_expand in E, Hlen.
  rewrite length_map, length_seq in Hlen; simpl in Hlen.
  rewrite <- Hlen in E; cbn [seq map mapM] in E.
  destruct (mapM _ (map (fun ps => nth 0 ps None) (map parts col)))
    as [mc'|] eqn:E0; cbn [bind] in E; [|discriminate].
  destruct (mapM _ (map (fun ps => nth 1 ps None) (map parts col)))
    as [fc'|] eqn:E1; cbn [bind] in E; [|discriminate].
  inversion E; subst mc' fc'; clear E.
  assert (Hd : forall ds, count_text ds = true -> forallb is_digit ds = true)
    by (intros ds H; apply andb_prop in H; tauto).
  assert (Hp : nth_error (map parts col) n
               = Some [Some (string_of_list_ascii (m ++ ["M"%char]));
                       Some (string_of_list_ascii (f ++ ["F"%char]))]).
  { rewrite nth_error_map, Hn; cbn [option_map].
    rewrite parts_composite by auto; reflexivity. }
  assert (H0 : nth_error (map (fun ps => nth 0 ps None) (map parts col)) n
               = Some (Some (string_of_list_ascii (m ++ ["M"%char]))))
    by (rewrite nth_error_map, Hp; reflexivity).
  assert (H1 : nth_error (map (fun ps => nth 1 ps None) (map parts col)) n
               = Some (Some (string_of_list_ascii (f ++ ["F"%char]))))
    by (rewrite nth_error_map, Hp; reflexivity).
  destruct (@mapM_nth _ _ _ _ _ _ _ E0 H0) as [ym [Hym Hm']].
  destruct (@mapM_nth _ _ _ _ _ _ _ E1 H1) as [yf [Hyf Hf']].
  rewrite marked_count in Hm', Hf' by assumption.
  inversion Hm'; inversion Hf'; subst.
  apply nth_error_combine; assumption.
Qed.

(* ------------------------------------------------------------------------- *)
(** * The table a run ends with *)

(** The cleaned table of a successful run carries the dense zero-based
    index, and the answer of the top-5 query is computed from it. *)
Lemma cleaned_dense_index (files : list csv_file) (rep : report) :
  run files = Ok rep ->
  dense_index (cleaned rep) /\ top5 rep = top_income_states (cleaned rep).
Proof.
  unfold run.
  destruct (pd_concat files) as [raw|]; cbn [bind]; [|discriminate].
  destruct (normalize raw) as [df|]; cbn [bind]; [|discriminate].
  destruct (polyfit _); cbn [bind]; [|discriminate].
  destruct (histograms _); cbn [bind]; [|discriminate].
  intro H; inversion H; subst rep; clear H; cbn [cleaned top5].
  split; [|reflexivity].
  unfold dense_index, labels, imputer, feature_deriver.
  rewrite !length_map, !map_map; cbn [fst].
  unfold deduplicate, reset_index, range_index.
  rewrite range_index_labels, length_combine, length_seq, Nat.min_id.
  reflexivity.
Qed.

(* ------------------------------------------------------------------------- *)
(** * Further properties of the Field Normalizer *)

Section PercentCleaning.

Local Open Scope char_scope.

Lemma delete_percent (w : list ascii) :
  percent_run w = true ->
  filter (fun c => negb (percent_mark c)) w = filter is_digit w.
Proof.
  unfold percent_run; induction w as [|c w IH]; intro H; simpl in *;
    [reflexivity|].
  apply andb_prop in H; destruct H as [Hc Hw].
  destruct (is_digit c) eqn:Ed.
  - destruct (digit_facts c Ed) as (_ & _ & _ & _ & _ & _ & _ & Hm & _).
    rewrite Hm, (IH Hw); reflexivity.
  - simpl in Hc; rewrite Hc, (IH Hw); reflexivity.
Qed.

(** X1.  Line 79 deletes every percent sign of a percentage text, wherever
    it stands, and reads the digits left as the binary64 number nearest to
    the decimal number they write: a whole number below 2^53 as it is, a
    fraction as it is when it is a binary fraction of at most 53
    significant bits, and within a relative error of 2^-53 across the
    normal range. *)
Theorem clean_percent_rounded :
  forall w f : list ascii,
    percent_text w = true ->
    percent_run f = true ->
    clean_percent (Some (string_of_list_ascii w))
    = Ok (round64 (inject_Z (digits_val (filter is_digit w))))
    /\ ((digits_val (filter is_digit w) < 2 ^ 53)%Z ->
        clean_percent (Some (string_of_list_ascii w))
        = Ok (Fin (inject_Z (digits_val (filter is_digit w)))))
    /\ clean_percent (Some (string_of_list_ascii (w ++ "." :: f)))
       = Ok (round64 (decimal
                        (digits_val (filter is_digit w ++ filter is_digit f))
                        (List.length (filter is_digit f))))
    /\ (forall n j : Z,
           (0 <= n < 2 ^ 53)%Z -> (0 <= j <= 1074)%Z ->
           decimal (digits_val (filter is_digit w ++ filter is_digit f))
                   (List.length (filter is_digit f))
           == inject_Z n * pw (- j) ->
           clean_percent (Some (string_of_list_ascii (w ++ "." :: f)))
           = Ok (Fin (Qred (decimal
                              (digits_val
                                 (filter is_digit w ++ filter is_digit f))
                              (List.length (filter is_digit f))))))
    /\ (pw (-1022)
        <= decimal (digits_val (filter is_digit w ++ filter is_digit f))
                   (List.length (filter is_digit f)) ->
        decimal (digits_val (filter is_digit w ++ filter is_digit f))
                (List.length (filter is_digit f))
        <= pw 1023 ->
        exists r : Q,
          clean_percent (Some (string_of_list_ascii (w ++ "." :: f)))
          = Ok (Fin r)
          /\ Qabs (r - decimal
                         (digits_val (filter is_digit w ++ filter is_digit f))
                         (List.length (filter is_digit f)))
             <= decimal (digits_val (filter is_digit w ++ filter is_digit f))
                        (List.length (filter is_digit f))
                * pw (-53)).
Proof.
  intros w f Hw Hf; unfold percent_text in Hw.
  apply andb_prop in Hw; destruct Hw as [Hall Hex].
  assert (Hwhole : clean_percent (Some (string_of_list_ascii w))
                   = Ok (round64 (inject_Z (digits_val (filter is_digit w))))).
  { unfold clean_percent, option_map, delete_chars, astype_float.
    rewrite !chars_of_list, (delete_percent w Hall).
    rewrite py_float_whole; [reflexivity | apply some_digit, Hex
                            | apply filter_digits]. }
  assert (Hfrac : clean_percent (Some (string_of_list_ascii (w ++ "." :: f)))
                  = Ok (round64
                          (decimal
                             (digits_val
                                (filter is_digit w ++ filter is_digit f))
                             (List.length (filter is_digit f))))).
  { unfold clean_percent, option_map, delete_chars, astype_float.
    rewrite !chars_of_list, filter_app; cbn [filter].
    change (negb (percent_mark ".")) with true; cbv iota.
    rewrite (delete_percent w Hall), (delete_percent f Hf).
    rewrite py_float_fraction;
      [| apply some_digit, Hex | apply filter_digits | apply filter_digits].
    rewrite scale10_fraction; reflexivity. }
  destruct (round64_reading
              (decimal (digits_val (filter is_digit w ++ filter is_digit f))
                       (List.length (filter is_digit f))))
    as [Hexact Hnear].
  split; [exact Hwhole|]; split; [|split; [exact Hfrac|split]].
  - intro Hlt; rewrite Hwhole, round64_whole; [reflexivity|].
    pose proof (digits_val_nonneg _ (filter_digits w)); lia.
  - intros n j Hn Hj Hq; rewrite Hfrac, (Hexact n j Hn Hj Hq); reflexivity.
  - intros Hlo Hhi; destruct (Hnear Hlo Hhi) as [r [Hr He]].
    exists r; rewrite Hfrac, Hr; split; [reflexivity | exact He].
Qed.

Lemma clean_percent_rounded_witness :
  clean_percent (Some "42"%string) = Ok (Fin 42)
  /\ clean_percent (Some "42.5%"%string) = Ok (Fin (85 # 2))
  /\ exists r : Q,
      clean_percent (Some "0.1%"%string) = Ok (Fin r)
      /\ Qabs (r - decimal 1 1) <= decimal 1 1 * pw (-53).
Proof.
  destruct (clean_percent_rounded (chars "42") (chars "5%")
              eq_refl eq_refl) as (_ & Hwhole & _ & Hexact & _).
  destruct (clean_percent_rounded (chars "0") (chars "1%")
              eq_refl eq_refl) as (_ & _ & _ & _ & Hnear).
  split; [apply Hwhole; reflexivity|].
  split; [apply (Hexact 85%Z 1%Z); [split | split |]; vm_compute;
          try reflexivity; discriminate|].
  apply Hnear; apply Qle_bool_iff; vm_compute; reflexivity.
Defined.

End PercentCleaning.

(** X2.  When the widest field of the [GenderPop] column does not split
    into exactly two parts (a field with two underscores, no field with an
    underscore, or no row at all), lines 61-64 raise: the cast fails, or
    the assignment to the two columns [Male] and [Female] does. *)
Theorem split_gender_wrong_width :
  forall col : list (option string),
    split_width col <> 2%nat ->
    exists e : exn, split_gender col = Raise e.
Proof.
  intros col Hw; unfold split_gender.
  destruct (nonempty col && forallb is_none col); [eauto|].
  destruct (mapM _ (str_split_expand col)) as [cols|e] eqn:E;
    cbn [bind]; [|eauto].
  assert (Hlen : List.length cols = split_width col).
  { rewrite (mapM_length _ _ E); unfold str_split_expand.
    rewrite length_map, length_seq; reflexivity. }
  destruct cols as [|m [|f [|x cols]]]; eauto.
  simpl in Hlen; congruence.
Qed.

Lemma split_gender_wrong_width_witness :
  split_width [Some "1234M_5678F"; Some "12M_34F_5X"]%string <> 2%nat
  /\ exists e : exn,
      split_gender [Some "1234M_5678F"; Some "12M_34F_5X"]%string = Raise e.
Proof.
  assert (H : split_width [Some "1234M_5678F"; Some "12M_34F_5X"]%string
              <> 2%nat) by (vm_compute; discriminate).
  split; [exact H|].
  exact (split_gender_wrong_width
           [Some "1234M_5678F"; Some "12M_34F_5X"]%string H).
Defined.

(** What one record gives, whatever the income and the counts handed in. *)
Lemma normalize_row_cells (r : raw_row) (inc : float64)
      (mf : option Z * option Z) (x : row) :
  normalize_row r inc mf = Ok x ->
  State x = raw_State r /\ TotalPop x = raw_TotalPop r /\ Income x = inc
  /\ mapM clean_percent (raw_demographic r) = Ok (demographic x).
Proof.
  unfold normalize_row, raw_demographic; cbn [mapM].
  destruct (clean_percent (raw_Hispanic r)); cbn [bind]; [|discriminate].
  destruct (clean_percent (raw_White r)); cbn [bind]; [|discriminate].
  destruct (clean_percent (raw_Black r)); cbn [bind]; [|discriminate].
  destruct (clean_percent (raw_Native r)); cbn [bind]; [|discriminate].
  destruct (clean_percent (raw_Asian r)); cbn [bind]; [|discriminate].
  destruct (clean_percent (raw_Pacific r)); cbn [bind]; [|discriminate].
  intro H; inversion H; subst x; repeat split.
Qed.

Lemma normalize_rows_cells (rows : list raw_row) (income : list float64)
      (gender : list (option Z * option Z)) (out : list row) :
  mapM clean_income (map raw_Income rows) = Ok income ->
  List.length gender = List.length rows ->
  mapM (fun x => normalize_row (fst (fst x)) (snd (fst x)) (snd x))
       (combine (combine rows income) gender) = Ok out ->
  Forall2 cleaned_from rows out.
Proof.
  revert income gender out; induction rows as [|r rows IH];
    intros income gender out Hi Hg Ho.
  - simpl in Ho; inversion Ho; constructor.
  - cbn [map mapM] in Hi.
    destruct (clean_income (raw_Income r)) as [inc|] eqn:Einc;
      cbn [bind] in Hi; [|discriminate].
    destruct (mapM clean_income (map raw_Income rows)) as [incs|] eqn:Eincs;
      cbn [bind] in Hi; [|discriminate].
    inversion Hi; subst income; clear Hi.
    destruct gender as [|mf gender]; [discriminate|].
    cbn [combine mapM fst snd] in Ho.
    destruct (normalize_row r inc mf) as [x|] eqn:Ex;
      cbn [bind] in Ho; [|discriminate].
    destruct (mapM _ (combine (combine rows incs) gender)) as [xs|] eqn:Exs;
      cbn [bind] in Ho; [|discriminate].
    inversion Ho; subst out; clear Ho.
    destruct (normalize_row_cells _ _ _ Ex) as (H1 & H2 & H3 & H4).
    constructor.
    + unfold cleaned_from; rewrite Einc, H3; auto.
    + apply (IH incs gender xs eq_refl); [simpl in Hg; lia | exact Exs].
Qed.

(** X3.  When lines 52-79 succeed, the normalized table has one row per
    record, in the order of the records and under the labels 0, 1, 2, ...;
    each row keeps the State and TotalPop of its record and holds the
    cleaned income and the six cleaned percentages of that same record. *)
Theorem normalize_keeps_rows :
  forall (raw : raw_frame) (df : frame row),
    normalize raw = Ok df ->
    labels df = seq 0 (List.length (raw_rows raw))
    /\ Forall2 cleaned_from (raw_rows raw) (values df).
Proof.
  intros raw df; unfold normalize.
  destruct (get_column "Income" raw); cbn [bind]; [|discriminate].
  destruct (mapM clean_income _) as [income|] eqn:Ei; cbn [bind];
    [|discriminate].
  destruct (get_column "GenderPop" raw); cbn [bind]; [|discriminate].
  destruct (split_gender _) as [gender|] eqn:Eg; cbn [bind]; [|discriminate].
  destruct (select_columns raw); cbn [bind]; [|discriminate].
  destruct (mapM _ (combine _ gender)) as [rows|] eqn:Er; cbn [bind];
    [|discriminate].
  intro H; inversion H; subst df; clear H.
  assert (Hg : List.length gender = List.length (raw_rows raw))
    by (rewrite (split_gender_length _ Eg); apply length_map).
  assert (Hf : Forall2 cleaned_from (raw_rows raw) rows)
    by (eapply normalize_rows_cells; eassumption).
  unfold labels, values, range_index.
  rewrite range_index_labels, range_index_values.
  rewrite (Forall2_length Hf); split; [reflexivity | exact Hf].
Qed.

Lemma normalize_keeps_rows_witness :
  exists df : frame row,
    normalize sample_raw = Ok df
    /\ labels df = seq 0 (List.length (raw_rows sample_raw))
    /\ Forall2 cleaned_from (raw_rows sample_raw) (values df).
Proof.
  eexists; split; [vm_compute; reflexivity|].
  apply (@normalize_keeps_rows sample_raw); vm_compute; reflexivity.
Defined.

(* ------------------------------------------------------------------------- *)
(** * Further properties of the Deduplicator *)

Lemma duplicated_from_length (rows seen : list row) :
  List.length (duplicated_from seen rows) = List.length rows.
Proof.
  revert seen; induction rows as [|r rs IH]; intro seen; simpl;
    [reflexivity|].
  destruct (existsb (row_eqb r) seen); simpl; rewrite IH; reflexivity.
Qed.

(** Scanning the kept rows again marks none of them. *)
Lemma rescan_unmarked (rows seen : list row) :
  duplicated_from seen (unmarked rows (duplicated_from seen rows))
  = repeat false (List.length (unmarked rows (duplicated_from seen rows))).
Proof.
  revert seen; induction rows as [|r rs IH]; intro seen; [reflexivity|].
  cbn [duplicated_from].
  destruct (existsb (row_eqb r) seen) eqn:E.
  - change (unmarked (r :: rs) (true :: duplicated_from seen rs))
      with (unmarked rs (duplicated_from seen rs)).
    apply IH.
  - change (unmarked (r :: rs) (false :: duplicated_from (r :: seen) rs))
      with (r :: unmarked rs (duplicated_from (r :: seen) rs)).
    cbn [duplicated_from List.length repeat]; rewrite E, IH; reflexivity.
Qed.

Lemma unmarked_none (A : Type) (l : list A) :
  unmarked l (repeat false (List.length l)) = l.
Proof.
  unfold unmarked; induction l as [|a l IH]; simpl; [reflexivity|].
  rewrite IH; reflexivity.
Qed.

Lemma duplicated_deduplicate (df : frame row) :
  duplicated (deduplicate df)
  = repeat false (List.length (deduplicate df)).
Proof.
  unfold duplicated; rewrite <- (length_values (deduplicate df)).
  rewrite values_deduplicate; unfold duplicated; apply rescan_unmarked.
Qed.

(** X4.  In the table the Deduplicator returns no two rows are identical
    across all columns. *)
Theorem deduplicate_no_repeats :
  forall (df : frame row) (i j : nat) (ri rj : row),
    (i < j)%nat ->
    nth_error (values (deduplicate df)) i = Some ri ->
    nth_error (values (deduplicate df)) j = Some rj ->
    row_eqb ri rj = false.
Proof.
  intros df i j ri rj Hlt Hi Hj.
  pose proof (duplicated_deduplicate df) as Hd.
  rewrite duplicated_spec, length_values in Hd.
  assert (Hjn : (j < List.length (deduplicate df))%nat).
  { rewrite <- (length_values (deduplicate df)).
    apply nth_error_Some; rewrite Hj; discriminate. }
  apply (f_equal (fun l => nth_error l j)) in Hd.
  rewrite nth_error_map, nth_error_seq, (nth_error_repeat false Hjn) in Hd.
  apply Nat.ltb_lt in Hjn; rewrite Hjn in Hd; simpl in Hd.
  injection Hd as Hrep; unfold is_repeat in Hrep; rewrite Hj in Hrep.
  destruct (row_eqb ri rj) eqn:E; [|reflexivity].
  assert (Hex : existsb (row_eqb rj) (firstn j (values (deduplicate df)))
                = true).
  { apply existsb_exists; exists ri; split; [|apply row_eqb_sym, E].
    apply (nth_error_In _ i); rewrite nth_error_firstn.
    apply Nat.ltb_lt in Hlt; rewrite Hlt; exact Hi. }
  rewrite Hex in Hrep; discriminate.
Qed.

Lemma deduplicate_no_repeats_witness :
  nth_error (values (deduplicate dup_table)) 0 = Some (base scenario_row)
  /\ nth_error (values (deduplicate dup_table)) 1 = Some (base sixty_row)
  /\ row_eqb (base scenario_row) (base sixty_row) = false.
Proof.
  split; [reflexivity|]; split; [reflexivity|].
  apply (@deduplicate_no_repeats dup_table 0 1); [lia | reflexivity..].
Defined.

(** X5.  Deduplicating twice is deduplicating once: on the table the
    Deduplicator returns, line 88 counts no duplicate and line 93 changes
    neither a row nor a label. *)
Theorem deduplicate_idempotent :
  forall df : frame row,
    duplicate_count (deduplicate df) = 0%nat
    /\ deduplicate (deduplicate df) = deduplicate df.
Proof.
  intro df; split.
  - unfold duplicate_count; rewrite duplicated_deduplicate.
    induction (List.length (deduplicate df)) as [|n IH]; simpl; auto.
  - unfold deduplicate at 1.
    change (drop_duplicates (deduplicate df))
      with (unmarked (deduplicate df) (duplicated (deduplicate df))).
    rewrite duplicated_deduplicate, unmarked_none.
    unfold deduplicate, reset_index, values, range_index.
    rewrite range_index_values; reflexivity.
Qed.

(* ------------------------------------------------------------------------- *)
(** * Further properties of the Feature Deriver *)

Lemma of_int_exact (z : Z) :
  (Z.abs z < 2 ^ 53)%Z -> of_int z = Fin (inject_Z z).
Proof. apply round64_whole. Qed.

Lemma quotient_unit (f t : Z) :
  (0 <= f <= t)%Z -> (0 < t)%Z ->
  0 <= inject_Z f / inject_Z t /\ inject_Z f / inject_Z t <= 1.
Proof.
  intros [H0 Hle] Ht.
  assert (Hpos : 0 < inject_Z t)
    by (change 0 with (inject_Z 0); rewrite <- Zlt_Qlt; lia).
  split.
  - apply Qle_shift_div_l; [exact Hpos|].
    rewrite Qmult_0_l; change 0 with (inject_Z 0); rewrite <- Zle_Qle; lia.
  - apply Qle_shift_div_r; [exact Hpos|].
    rewrite Qmult_1_l, <- Zle_Qle; exact Hle.
Qed.

(** X6.  With a female count between 0 and the population, the population
    being below 2^53 and not 0, line 103 gives the binary64 number nearest
    to the quotient of the two: a number between 0 and 1, within a
    relative error of 2^-53 of the quotient. *)
Theorem female_proportion_quotient :
  forall (r : row) (f t : Z),
    Female r = Some f ->
    TotalPop r = Some t ->
    (0 <= f <= t)%Z ->
    (0 < t < 2 ^ 53)%Z ->
    exists q : Q,
      Female_Proportion (derive_row r) = Fin q
      /\ round64 (inject_Z f / inject_Z t) = Fin q
      /\ 0 <= q /\ q <= 1
      /\ Qabs (q - inject_Z f / inject_Z t)
         <= inject_Z f / inject_Z t * pw (-53).
Proof.
  intros r f t Hf Ht Hft Htb; unfold derive_row; cbn [Female_Proportion].
  rewrite Hf, Ht; unfold truediv.
  replace (t =? 0)%Z with false by (symmetry; apply Z.eqb_neq; lia).
  rewrite !of_int_exact by lia; cbn [fdiv].
  assert (Hpos : 0 < inject_Z t)
    by (change 0 with (inject_Z 0); rewrite <- Zlt_Qlt; lia).
  replace (Qeq_bool (inject_Z t) 0) with false.
  2:{ symmetry; apply not_true_is_false; intro H.
      apply Qeq_bool_iff in H; rewrite H in Hpos.
      exact (Qlt_irrefl 0 Hpos). }
  destruct (quotient_unit Hft (proj1 Htb)) as [Hx0 Hx1].
  remember (inject_Z f / inject_Z t) as x eqn:Ex.
  destruct (round64_unit x Hx0 Hx1) as [q [Hq [Hq0 Hq1]]].
  exists q; split; [exact Hq|]; split; [exact Hq|].
  split; [exact Hq0|]; split; [exact Hq1|].
  destruct (Z.eq_dec f 0) as [Hz|Hz].
  - assert (E0 : x == 0)
      by (rewrite Ex, Hz; unfold Qdiv; apply Qmult_0_l).
    assert (Hr : round64 x = Fin (Qred x)).
    { apply (round64_exact x 0 0); [reflexivity | lia |].
      rewrite E0; reflexivity. }
    rewrite Hr in Hq; inversion Hq; subst q.
    rewrite Qred_correct, E0; apply Qle_bool_iff; reflexivity.
  - assert (Hlo : pw (-1022) <= x).
    { rewrite Ex; apply Qle_shift_div_l; [exact Hpos|].
      assert (Hs : pw (-1022) <= 1 # 9007199254740992)
        by (apply Qle_bool_iff; vm_compute; reflexivity).
      assert (HT : inject_Z t <= 9007199254740992)
        by (change 9007199254740992 with (inject_Z (2 ^ 53));
            rewrite <- Zle_Qle; lia).
      assert (HF : 1 <= inject_Z f)
        by (change 1 with (inject_Z 1); rewrite <- Zle_Qle; lia).
      assert (HM : pw (-1022) * inject_Z t
                   <= (1 # 9007199254740992) * inject_Z t)
        by (apply Qmult_le_compat_r; [exact Hs | apply Qlt_le_weak, Hpos]).
      remember (pw (-1022) * inject_Z t) as lhs.
      lra. }
    assert (Hhi : x <= pw 1023).
    { apply (Qle_trans _ 1); [exact Hx1|].
      apply Qle_bool_iff; vm_compute; reflexivity. }
    destruct (round64_reading x) as [_ Hnear].
    destruct (Hnear Hlo Hhi) as [q' [Hq' He]].
    rewrite Hq in Hq'; inversion Hq'; subst q'; exact He.
Qed.

(** Counts beyond 2^53 are rounded before they are divided: 2^53 women in
    a population of 2^53 + 1 give the proportion 1; and one third is not a
    binary64 number. *)
Example quotient_of_large_counts :
  truediv (Some 9007199254740992%Z) (Some 9007199254740993%Z) = Fin 1
  /\ truediv (Some 1%Z) (Some 3%Z)
     = Fin (6004799503160661 # 18014398509481984).
Proof. split; vm_compute; reflexivity. Qed.

Lemma female_proportion_quotient_witness :
  exists q : Q,
    Female_Proportion (derive_row (base scenario_row)) = Fin q
    /\ round64 (inject_Z 600 / inject_Z 1000) = Fin q
    /\ 0 <= q /\ q <= 1
    /\ Qabs (q - inject_Z 600 / inject_Z 1000)
       <= inject_Z 600 / inject_Z 1000 * pw (-53).
Proof.
  apply (@female_proportion_quotient (base scenario_row) 600 1000);
    [reflexivity | reflexivity | lia | lia].
Defined.

(* ------------------------------------------------------------------------- *)
(** * Further properties of the Imputer *)

Lemma finite_not_na (s : list float64) :
  forallb is_finite s = true -> existsb isna s = false.
Proof.
  induction s as [|x s IH]; simpl; intro H; [reflexivity|].
  apply andb_prop in H; destruct H as [Hx Hs].
  destruct x; try discriminate; simpl; auto.
Qed.

Lemma fillna_NaN (s : list float64) : fillna NaN s = s.
Proof.
  unfold fillna; induction s as [|x s IH]; simpl; [reflexivity|].
  rewrite IH; destruct x; reflexivity.
Qed.

Lemma impute_series_settled (s : list float64) :
  impute_series s = s \/ existsb isna (impute_series s) = false.
Proof.
  unfold impute_series; destruct (existsb isna s) eqn:E; [|auto].
  destruct (isna (fsub hundred (nansum s))) eqn:Ev.
  - left; destruct (fsub hundred (nansum s)); try discriminate.
    apply fillna_NaN.
  - right; apply fillna_fills, Ev.
Qed.

Lemma impute_series_twice (s : list float64) :
  impute_series (impute_series s) = impute_series s.
Proof.
  destruct (impute_series_settled s) as [H|H].
  - rewrite !H; reflexivity.
  - unfold impute_series at 1; rewrite H; reflexivity.
Qed.

Lemma set_demographic_twice (s : list float64) (r : row) :
  set_demographic s (set_demographic s r) = set_demographic s r.
Proof.
  destruct s as [|h [|w [|b [|n [|a [|p [|x s]]]]]]]; reflexivity.
Qed.

Lemma impute_row_twice (r : drow) : impute_row (impute_row r) = impute_row r.
Proof.
  unfold impute_row at 1; rewrite demographic_impute, impute_series_twice.
  unfold impute_row; cbn [base Female_Proportion].
  rewrite set_demographic_twice; reflexivity.
Qed.

(** X7.  Running the Imputer again changes nothing: every gap it can fill
    is filled by the first pass, and the rows it leaves with a gap (the
    complement is itself undefined) are left so again. *)
Theorem imputer_idempotent :
  forall df : frame drow, imputer (imputer df) = imputer df.
Proof.
  intro df; unfold imputer; rewrite map_map; apply map_ext.
  intros [i r]; cbn [fst snd]; rewrite impute_row_twice; reflexivity.
Qed.

Lemma impute_row_fills (r : drow) :
  ordinary (demographic (base r)) = true ->
  existsb isna (demographic (base (impute_row r))) = false.
Proof.
  intro H; rewrite demographic_impute; unfold impute_series.
  destruct (existsb isna (demographic (base r))) eqn:E; [|exact E].
  apply fillna_fills, fill_value_not_na, H.
Qed.

(** X8.  On a table without an infinite percentage the Imputer leaves no
    demographic cell missing. *)
Theorem imputer_fills_every_gap :
  forall df : frame drow,
    ordinary_table df = true -> complete (imputer df) = true.
Proof.
  unfold ordinary_table, complete, imputer.
  induction df as [|[i r] df IH]; cbn [map forallb fst snd]; intro H;
    [reflexivity|].
  apply andb_prop in H; destruct H as [Hr Hdf].
  rewrite (impute_row_fills r Hr), (IH Hdf); reflexivity.
Qed.

Lemma imputer_fills_every_gap_witness :
  ordinary_table sample_frame = true /\ complete (imputer sample_frame) = true.
Proof.
  split; [reflexivity|].
  apply (@imputer_fills_every_gap sample_frame); reflexivity.
Defined.

(** X9.  A row with k >= 1 missing demographic percentages, the others at
    most 1000 in magnitude, adds up, once imputed, to a number within 1e-9
    of s + k * (100 - s), where s is the sum of the percentages it had:
    100 for one gap, 200 - s for two. *)
Theorem imputed_row_sum_with_gaps :
  forall r : drow,
    within 1000 (demographic (base r)) = true ->
    (0 < count_na (demographic (base r)))%nat ->
    exists t : Q,
      fsum (demographic (base (impute_row r))) = Fin t
      /\ Qabs (t - (qsum (demographic (base r))
                    + inject_Z (Z.of_nat (count_na (demographic (base r))))
                      * (100 - qsum (demographic (base r)))))
         <= 1 # 1000000000.
Proof.
  intros r Hw Hk; rewrite demographic_impute.
  apply impute_series_sum; [exact Hw | apply Nat.leb_le; reflexivity | exact Hk].
Qed.

Lemma imputed_row_sum_with_gaps_witness :
  within 1000 (demographic (base two_gap_row)) = true
  /\ (0 < count_na (demographic (base two_gap_row)))%nat
  /\ exists t : Q,
      fsum (demographic (base (impute_row two_gap_row))) = Fin t
      /\ Qabs (t - (qsum (demographic (base two_gap_row))
                    + inject_Z (Z.of_nat
                                  (count_na (demographic (base two_gap_row))))
                      * (100 - qsum (demographic (base two_gap_row)))))
         <= 1 # 1000000000.
Proof.
  assert (Hk : (0 < count_na (demographic (base two_gap_row)))%nat)
    by (apply Nat.ltb_lt; reflexivity).
  split; [reflexivity|]; split; [exact Hk|].
  apply (@imputed_row_sum_with_gaps two_gap_row); [reflexivity | exact Hk].
Defined.

(** The two gaps of [two_gap_row] make its percentages add up to 124.5. *)
Example two_gaps_sum :
  fsum (demographic (base (impute_row two_gap_row))) = Fin (249 # 2).
Proof. vm_compute; reflexivity. Qed.

(* ------------------------------------------------------------------------- *)
(** * Further properties of the gender split and of the whole run *)

Lemma split_gender_field_witness :
  split_gender [Some "1234M_5678F"; None; Some "12M"]%string
  = Ok [(Some 1234%Z, Some 5678%Z); (None, None); (Some 12%Z, None)]
  /\ nth_error [(Some 1234%Z, Some 5678%Z); (None, None); (Some 12%Z, None)] 0
     = Some (Some 1234%Z, Some 5678%Z).
Proof.
  assert (H : split_gender [Some "1234M_5678F"; None; Some "12M"]%string
              = Ok [(Some 1234%Z, Some 5678%Z); (None, None);
                    (Some 12%Z, None)]) by reflexivity.
  split; [exact H|].
  exact (@split_gender_field
           [Some "1234M_5678F"; None; Some "12M"]%string 0
           (chars "1234") (chars "5678") _ eq_refl eq_refl eq_refl H).
Defined.

Lemma normalize_length (raw : raw_frame) (df : frame row) :
  normalize raw = Ok df -> List.length df = List.length (raw_rows raw).
Proof.
  unfold normalize.
  destruct (get_column "Income" raw); cbn [bind]; [|discriminate].
  destruct (mapM clean_income _) as [income|] eqn:Ei; cbn [bind];
    [|discriminate].
  destruct (get_column "GenderPop" raw); cbn [bind]; [|discriminate].
  destruct (split_gender _) as [gender|] eqn:Eg; cbn [bind]; [|discriminate].
  destruct (select_columns raw); cbn [bind]; [|discriminate].
  destruct (mapM _ (combine _ gender)) as [rows|] eqn:Er; cbn [bind];
    [|discriminate].
  intro H; inversion H; subst df; clear H.
  rewrite range_index_length, (mapM_length _ _ Er), !length_combine.
  rewrite (mapM_length _ _ Ei), (split_gender_length _ Eg), !length_map.
  lia.
Qed.

Lemma read_rows_length (files : list csv_file) :
  List.length (List.concat (map read_csv files))
  = List.length (all_records files).
Proof.
  unfold all_records; induction files as [|f files IH]; simpl;
    [reflexivity|].
  rewrite !length_app, IH; unfold read_csv; rewrite length_map; reflexivity.
Qed.

Lemma deduplicate_length_le (df : frame row) :
  (List.length (deduplicate df) <= List.length df)%nat.
Proof.
  unfold deduplicate, reset_index; rewrite range_index_length, length_values.
  unfold drop_duplicates; rewrite length_map.
  apply Nat.le_trans with (List.length (combine df (duplicated df)));
    [apply filter_length_le|].
  rewrite length_combine; apply Nat.le_min_l.
Qed.

Lemma top_income_from_table (df : frame drow)
      (x : nat * (option string * float64 * float64)) :
  In x (top_income_states df) ->
  exists r : drow,
    In (fst x, r) df
    /\ snd x = (State (base r), Income (base r), Female_Proportion r).
Proof.
  unfold top_income_states, nlargest; intro H.
  apply in_map_iff in H; destruct H as [[i r] [<- Hin]].
  exists r; split; [|reflexivity]; cbn [fst summary].
  apply (Permutation_in _ (Permutation_sym (ranking_perm df))).
  match type of Hin with
  | In _ (firstn 5 ?l) =>
      rewrite <- (firstn_skipn 5 l); apply in_or_app; left; exact Hin
  end.
Qed.

(** X11.  A run that succeeds ends with a table under the labels
    0, 1, 2, ... that has no more rows than the files have records; the
    top-5 answer has min(5, rows) lines, each the State, Income and
    Female_Proportion of the row of the final table with the same label. *)
Theorem run_table_shape :
  forall (files : list csv_file) (rep : report),
    run files = Ok rep ->
    dense_index (cleaned rep)
    /\ (List.length (cleaned rep) <= List.length (all_records files))%nat
    /\ List.length (top5 rep) = Nat.min 5 (List.length (cleaned rep))
    /\ (forall x, In x (top5 rep) ->
                  exists r : drow,
                    In (fst x, r) (cleaned rep)
                    /\ snd x = (State (base r), Income (base r),
                                Female_Proportion r)).
Proof.
  intros files rep; unfold run.
  destruct (pd_concat files) as [raw|] eqn:Eraw; cbn [bind]; [|discriminate].
  destruct (normalize raw) as [df|] eqn:Edf; cbn [bind]; [|discriminate].
  destruct (polyfit _); cbn [bind]; [|discriminate].
  destruct (histograms _); cbn [bind]; [|discriminate].
  intro H; inversion H; subst rep; clear H; cbn [cleaned top5].
  destruct (@pd_concat_ok _ _ Eraw) as [_ Hrows].
  repeat split.
  - unfold dense_index, labels, imputer, feature_deriver.
    rewrite !length_map, !map_map; cbn [fst].
    unfold deduplicate, reset_index, range_index.
    rewrite range_index_labels, length_combine, length_seq, Nat.min_id.
    reflexivity.
  - unfold imputer, feature_deriver; rewrite !length_map.
    apply Nat.le_trans with (List.length df);
      [apply deduplicate_length_le|].
    rewrite (normalize_length _ Edf), Hrows, read_rows_length; lia.
  - unfold top_income_states, nlargest; rewrite length_map, length_firstn.
    rewrite <- (Permutation_length (ranking_perm _)); reflexivity.
  - apply top_income_from_table.
Qed.

Lemma run_table_shape_witness :
  exists rep : report,
    run [states0; states1] = Ok rep
    /\ dense_index (cleaned rep)
    /\ (List.length (cleaned rep)
        <= List.length (all_records [states0; states1]))%nat
    /\ List.length (top5 rep) = Nat.min 5 (List.length (cleaned rep))
    /\ (forall x, In x (top5 rep) ->
                  exists r : drow,
                    In (fst x, r) (cleaned rep)
                    /\ snd x = (State (base r), Income (base r),
                                Female_Proportion r)).
Proof.
  eexists; split; [vm_compute; reflexivity|].
  apply (@run_table_shape [states0; states1]); vm_compute; reflexivity.
Defined.

Section CountEdges.

Local Open Scope char_scope.

(** X12.  A male count written with digits but beyond the range of
    [Int64] makes lines 61-64 raise, whatever the other fields are. *)
Theorem split_gender_overflow :
  forall (col : list (option string)) (m f : list ascii),
    In (Some (composite m f)) col ->
    forallb is_digit m = true ->
    forallb is_digit f = true ->
    nonempty m = true ->
    int64_ok (digits_val m) = false ->
    exists e : exn, split_gender col = Raise e.
Proof.
  intros col m f Hin Hm Hf Hne Hbig.
  apply (@split_gender_raise col (Some (composite m f))
           (Some (string_of_list_ascii (m ++ ["M"]))) OverflowError Hin).
  - rewrite parts_composite by assumption; left; reflexivity.
  - unfold strip_marker; rewrite chars_of_list, removelast_last.
    destruct m as [|d m]; [discriminate|].
    unfold astype_Int64; rewrite py_int_digits, Hbig by assumption.
    reflexivity.
Qed.

Lemma split_gender_overflow_witness :
  exists e : exn,
    split_gender [Some "400M_600F"; Some "9223372036854775808M_5F"]%string
    = Raise e.
Proof.
  apply (@split_gender_overflow
           [Some "400M_600F"; Some "9223372036854775808M_5F"]%string
           (chars "9223372036854775808") (chars "5"));
    [right; left; reflexivity | reflexivity..].
Defined.

End CountEdges.

(** X13.  A record without [GenderPop] gets a missing [Male] and a missing
    [Female], whatever the other fields are, as long as the split of the
    column succeeds. *)
Theorem split_gender_missing_cell :
  forall (col : list (option string)) (n : nat)
         (g : list (option Z * option Z)),
    nth_error col n = Some None ->
    split_gender col = Ok g ->
    nth_error g n = Some (None, None).
Proof.
  intros col n g Hn; unfold split_gender.
  destruct (nonempty col && forallb is_none col); [discriminate|].
  destruct (mapM _ (str_split_expand col)) as [cols|] eqn:E;
    simpl; [|discriminate].
  destruct cols as [|mc [|fc [|x cols]]]; try discriminate.
  intro Hg; inversion Hg; subst g; clear Hg.
  pose proof (mapM_length _ _ E) as Hlen.
  unfold str_split_expand in E, Hlen.
  rewrite length_map, length_seq in Hlen; simpl in Hlen.
  rewrite <- Hlen in E; cbn [seq map mapM] in E.
  destruct (mapM _ (map (fun ps => nth 0 ps None) (map parts col)))
    as [mc'|] eqn:E0; cbn [bind] in E; [|discriminate].
  destruct (mapM _ (map (fun ps => nth 1 ps None) (map parts col)))
    as [fc'|] eqn:E1; cbn [bind] in E; [|discriminate].
  inversion E; subst mc' fc'; clear E.
  assert (Hp : nth_error (map parts col) n = Some [None])
    by (rewrite nth_error_map, Hn; reflexivity).
  assert (H0 : nth_error (map (fun ps => nth 0 ps None) (map parts col)) n
               = Some None)
    by (rewrite nth_error_map, Hp; reflexivity).
  assert (H1 : nth_error (map (fun ps => nth 1 ps None) (map parts col)) n
               = Some None)
    by (rewrite nth_error_map, Hp; reflexivity).
  destruct (@mapM_nth _ _ _ _ _ _ _ E0 H0) as [ym [Hym Hm']].
  destruct (@mapM_nth _ _ _ _ _ _ _ E1 H1) as [yf [Hyf Hf']].
  simpl in Hm', Hf'; inversion Hm'; inversion Hf'; subst.
  apply nth_error_combine; assumption.
Qed.

Lemma split_gender_missing_cell_witness :
  split_gender [Some "1234M_5678F"; None; Some "12M"]%string
  = Ok [(Some 1234%Z, Some 5678%Z); (None, None); (Some 12%Z, None)]
  /\ nth_error [(Some 1234%Z, Some 5678%Z); (None, None); (Some 12%Z, None)] 1
     = Some (None, None).
Proof.
  assert (H : split_gender [Some "1234M_5678F"; None; Some "12M"]%string
              = Ok [(Some 1234%Z, Some 5678%Z); (None, None);
                    (Some 12%Z, None)]) by reflexivity.
  split; [exact H|].
  exact (@split_gender_missing_cell
           [Some "1234M_5678F"; None; Some "12M"]%string 1 _ eq_refl H).
Defined.
